(** * atef.procedure: prepared procedure steps, their execution and the
      aggregation of their results

    A shallow embedding of [src/atef/procedure.py].  Python objects that the
    code mutates in place are values that every operation returns updated;
    code that may raise returns a [res]; code that talks to hardware, to the
    file system or to the scan engine goes through explicit oracles over an
    abstract [World], and every such call is recorded in a trace. *)

From Stdlib Require Import String List Bool Arith ZArith Lia.
From Stdlib Require Import Permutation.
Import ListNotations.
Local Open Scope string_scope.
Local Open Scope list_scope.
Local Open Scope nat_scope.

(** String concatenation, as [+] and f-strings do it. *)
Infix "+++" := String.append (right associativity, at level 60).

Set Implicit Arguments.

(* Induction principles for trees whose children sit in a list. *)
Scheme All for list.

(** ** Exceptions and fallible computations *)

(** A Python exception object (an instance of [Exception]): its class, whether
    that class derives from [OSError], and the text [str(ex)] gives. *)
Record Exn : Set := mkExn {
  exn_class : string;
  exn_is_oserror : bool;
  exn_message : string
}.

Definition str_exn (ex : Exn) : string := exn_message ex.

Definition NotImplementedError (msg : string) : Exn := mkExn "NotImplementedError" false msg.
Definition ValueError (msg : string) : Exn := mkExn "ValueError" false msg.
Definition AttributeError (msg : string) : Exn := mkExn "AttributeError" false msg.

(** The outcome of code that may raise. *)
Inductive res (A : Type) : Type :=
| Ok (a : A)
| Raise (ex : Exn).
Arguments Ok {A} a.
Arguments Raise {A} ex.

Definition res_bind {A B : Type} (m : res A) (k : A -> res B) : res B :=
  match m with
  | Ok a => k a
  | Raise ex => Raise ex
  end.

Declare Scope res_scope.
Delimit Scope res_scope with res.
Notation "x <- m ;; k" := (res_bind m (fun x => k))
  (at level 100, m at next level, right associativity) : res_scope.

(** ** Result model (atef.enums, atef.result) *)

(** Modelled from the spec: [atef.enums.Severity] is not among the sources;
    the spec gives the ordered enum success < warning < error <
    internal_error. *)
Inductive Severity : Set := success | warning | error | internal_error.

Definition severity_value (s : Severity) : nat :=
  match s with
  | success => 0
  | warning => 1
  | error => 2
  | internal_error => 3
  end.

Definition sev_leb (a b : Severity) : bool := severity_value a <=? severity_value b.
Definition sev_gtb (a b : Severity) : bool := severity_value b <? severity_value a.
Definition sev_le (a b : Severity) : Prop := severity_value a <= severity_value b.

Definition sev_eqb (a b : Severity) : bool := severity_value a =? severity_value b.

Definition sev_max (a b : Severity) : Severity := if sev_leb a b then b else a.

(** What a [Result.reason] holds: nothing, a string, or (in
    [PreparedValueToSignal.run]) the exception object itself. *)
Inductive Reason : Set :=
| ReasonNone
| ReasonStr (s : string)
| ReasonExc (ex : Exn).

(** Modelled from the spec: [atef.result.Result] is not among the sources; a
    severity plus a reason.  The code builds [Result()] for a success with no
    reason. *)
Record Result : Set := mkResult {
  severity : Severity;
  reason : Reason
}.

(** [Result()] *)
Definition Result_default : Result := mkResult success ReasonNone.

(** How an f-string renders a reason. *)
Definition format_reason (r : Reason) : string :=
  match r with
  | ReasonNone => "None"
  | ReasonStr s => s
  | ReasonExc ex => str_exn ex
  end.

(** Modelled from the spec: [atef.enums.GroupResultMode] is not among the
    sources; the only mode the procedure code uses is "all must succeed". *)
Inductive GroupResultMode : Set := all_.

(** The worst severity of a collection; success when there is none. *)
Definition get_maximum_severity (severities : list Severity) : Severity :=
  fold_right sev_max success severities.

(** Modelled from the spec: [atef.result._summarize_result_severity] is not
    among the sources.  Under [all_] the aggregate severity is the maximum of
    the input severities, and an empty input gives success. *)
Definition _summarize_result_severity (mode : GroupResultMode) (results : list Result) : Severity :=
  match mode with
  | all_ => get_maximum_severity (map severity results)
  end.

(** ** Edit model: procedure steps and their targets *)

(** Values written to signals and passed to plans ([PrimitiveType]). *)
Inductive PrimitiveType : Set :=
| PInt (z : Z)
| PBool (b : bool)
| PStr (s : string)
| PFloat (literal : string).

(** [Number]: an integer or a float (kept as its literal). *)
Inductive Number : Set :=
| NInt (z : Z)
| NFloat (literal : string).

(** An [ophyd] signal handle: the code only passes it around, asks for its
    [pvname] and writes to it. *)
Record Signal : Set := mkSignal {
  signal_key : string;
  pvname : option string
}.

(** [atef.check.Comparison]: the code reads its [name] only. *)
Record Comparison : Set := mkComparison {
  comparison_name : option string;
  comparison_spec : string
}.

(** Python truthiness of an optional string: neither [None] nor empty. *)
Definition truthy (o : option string) : bool :=
  match o with
  | Some (String _ _) => true
  | _ => false
  end.

Record Target : Set := mkTarget {
  target_name : option string;
  device : option string;
  attr : option string;
  pv : option string
}.

Record ValueToTarget : Set := mkValueToTarget {
  vt_target : Target;
  value : option PrimitiveType;
  timeout : option Number;
  settle_time : option Number
}.

Record ComparisonToTarget : Set := mkComparisonToTarget {
  ct_target : Target;
  comparison : option Comparison
}.

Record PlanOptions : Set := mkPlanOptions {
  plan_name : string;
  plan : string;
  plan_args : list PrimitiveType;
  plan_kwargs : list (string * PrimitiveType)
}.

(** Modelled from the spec: [atef.enums.PlanDestination] is not among the
    sources; the local synchronous engine ([local_], the member the code
    names) or any other destination value. *)
Inductive PlanDestination : Set :=
| local_
| other_destination (label : string).

Definition PlanDestination_eqb (a b : PlanDestination) : bool :=
  match a, b with
  | local_, local_ => true
  | other_destination x, other_destination y => String.eqb x y
  | _, _ => false
  end.

(** The fields every [ProcedureStep] has.  The [parent] back-reference is not
    an owning field and no operation below reads it; it is left out. *)
Record StepFields : Set := mkStepFields {
  name : option string;
  description : option string;
  verify_required : bool;
  step_success_required : bool
}.

(** [AnyProcedure]: the step variants a procedure tree is made of. *)
Inductive ProcedureStep : Set :=
| ProcedureGroup (f : StepFields) (steps : list ProcedureStep)
| DescriptionStep (f : StepFields)
| PassiveStep (f : StepFields) (filepath : string)
| SetValueStep (f : StepFields) (actions : list ValueToTarget)
    (success_criteria : list ComparisonToTarget)
    (halt_on_fail require_action_success : bool)
| PlanStep (f : StepFields) (plans : list PlanOptions)
    (checks : list ComparisonToTarget) (destination : PlanDestination)
    (halt_on_fail require_plan_success : bool).

Definition fields (step : ProcedureStep) : StepFields :=
  match step with
  | ProcedureGroup f _ => f
  | DescriptionStep f => f
  | PassiveStep f _ => f
  | SetValueStep f _ _ _ _ => f
  | PlanStep f _ _ _ _ _ => f
  end.

(** [type(step)] as an f-string renders it. *)
Definition type_repr (step : ProcedureStep) : string :=
  match step with
  | ProcedureGroup _ _ => "<class 'atef.procedure.ProcedureGroup'>"
  | DescriptionStep _ => "<class 'atef.procedure.DescriptionStep'>"
  | PassiveStep _ _ => "<class 'atef.procedure.PassiveStep'>"
  | SetValueStep _ _ _ _ _ => "<class 'atef.procedure.SetValueStep'>"
  | PlanStep _ _ _ _ _ _ => "<class 'atef.procedure.PlanStep'>"
  end.

(** ** Prepared model *)

(** [atef.config.PreparedFile]: a prepared passive checkout, opaque here. *)
Record PreparedFile : Set := mkPreparedFile {
  passive_path : string
}.

Record PreparedValueToSignal : Set := mkPreparedValueToSignal {
  pvts_name : option string;
  pvts_signal : Signal;
  pvts_value : option PrimitiveType;
  pvts_origin : ValueToTarget;
  pvts_result : Result
}.

(** [atef.config.PreparedSignalComparison]: the code reads and expects
    [compare()] to refresh its [result]. *)
Record PreparedSignalComparison : Set := mkPreparedSignalComparison {
  psc_name : option string;
  psc_signal : option Signal;
  psc_comparison : option Comparison;
  psc_result : Result
}.

(** [atef.exceptions.PreparedComparisonException], with the arguments the
    code builds it from. *)
Record PreparedComparisonException : Set := mkPreparedComparisonException {
  pce_exception : Exn;
  pce_identifier : string;
  pce_message : string;
  pce_comparison : option Comparison;
  pce_name : option string
}.

Record PlanItem : Set := mkPlanItem {
  item_name : string;
  item_args : list PrimitiveType;
  item_kwargs : list (string * PrimitiveType);
  item_user_group : string
}.

Record PreparedPlan : Set := mkPreparedPlan {
  pp_name : string;
  pp_origin : PlanOptions;
  pp_item : PlanItem;
  pp_uuid : option string;
  pp_result : Result
}.

(** The fields every [PreparedProcedureStep] has ([parent] left out as in
    [StepFields]). *)
Record PreparedFields : Set := mkPreparedFields {
  prepared_name : option string;
  origin : ProcedureStep;
  combined_result : Result;
  verify_result : Result;
  step_result : Result
}.

Definition set_combined_result (c : PreparedFields) (r : Result) : PreparedFields :=
  mkPreparedFields (prepared_name c) (origin c) r (verify_result c) (step_result c).

Definition set_step_result (c : PreparedFields) (r : Result) : PreparedFields :=
  mkPreparedFields (prepared_name c) (origin c) (combined_result c) (verify_result c) r.

Record FailedStep : Set := mkFailedStep {
  failed_origin : ProcedureStep;
  failed_combined_result : Result;
  failed_verify_result : Result;
  failed_step_result : Result;
  exception : option Exn
}.

(** [AnyPreparedProcedure]. *)
Inductive PreparedProcedureStep : Set :=
| PreparedProcedureGroup (c : PreparedFields)
    (steps : list PreparedProcedureStep) (prepare_failures : list FailedStep)
| PreparedDescriptionStep (c : PreparedFields)
| PreparedPassiveStep (c : PreparedFields) (prepared_passive_file : option PreparedFile)
| PreparedSetValueStep (c : PreparedFields)
    (prepared_actions : list PreparedValueToSignal)
    (prepare_action_failures : list ValueToTarget)
    (prepared_criteria : list PreparedSignalComparison)
    (prepare_criteria_failures : list PreparedComparisonException)
| PreparedPlanStep (c : PreparedFields)
    (prepared_plans : list PreparedPlan)
    (prepared_plan_failures : list PlanOptions)
    (prepared_checks : list PreparedSignalComparison)
    (prepared_checks_failures : list PreparedComparisonException).

Definition common (st : PreparedProcedureStep) : PreparedFields :=
  match st with
  | PreparedProcedureGroup c _ _ => c
  | PreparedDescriptionStep c => c
  | PreparedPassiveStep c _ => c
  | PreparedSetValueStep c _ _ _ _ => c
  | PreparedPlanStep c _ _ _ _ => c
  end.

Definition with_common (st : PreparedProcedureStep) (c : PreparedFields) : PreparedProcedureStep :=
  match st with
  | PreparedProcedureGroup _ ss fs => PreparedProcedureGroup c ss fs
  | PreparedDescriptionStep _ => PreparedDescriptionStep c
  | PreparedPassiveStep _ pf => PreparedPassiveStep c pf
  | PreparedSetValueStep _ a af k kf => PreparedSetValueStep c a af k kf
  | PreparedPlanStep _ p pf k kf => PreparedPlanStep c p pf k kf
  end.

(** What [PreparedProcedureStep.from_origin] returns. *)
Inductive AnyPrepared : Set :=
| Prepared (st : PreparedProcedureStep)
| Failed (fs : FailedStep).

(** What [create_prepared_comparison] returns; the exception record is an
    [Exception] instance, which is how the callers tell the two apart. *)
Inductive ComparisonOrException : Set :=
| IsComparison (p : PreparedSignalComparison)
| IsException (e : PreparedComparisonException).

(** Calls that leave the process, in the order they were made. *)
Inductive Event : Set :=
| SignalSet (sig : Signal) (v : option PrimitiveType) (tmo settle : option Number)
| Compared (crit : PreparedSignalComparison)
| PassiveRun (file : PreparedFile)
| LocalRunEngine (item : PlanItem)
| NamespaceLoaded.

Definition is_compared (e : Event) : bool :=
  match e with
  | Compared _ => true
  | _ => false
  end.

(** ** What the module imports and does not define

    The collaborators of [procedure.py]: the device directory and the signal
    cache, the passive-checkout engine, the comparisons, the scan engine, and
    the builtin [repr].  Preparation reads them; running changes the
    [World]. *)
Class External : Type := {
  World : Type;
  (** [atef.result.incomplete_result()], the default of every result field. *)
  incomplete_result : Result;
  (** [repr] of a string and of a [ValueToTarget]. *)
  py_repr : string -> string;
  repr_ValueToTarget : ValueToTarget -> string;
  (** [getattr(util.get_happi_device_by_name(device), attr)] *)
  get_happi_signal : string -> string -> res Signal;
  (** [get_signal_cache()[pv]] *)
  signal_cache_get : string -> res Signal;
  (** [PreparedFile.from_config(file=ConfigurationFile.from_filename(path))] *)
  load_passive_file : string -> res PreparedFile;
  (** [PreparedSignalComparison.from_signal(signal=..., comparison=...)] *)
  from_signal : option Signal -> option Comparison -> res PreparedSignalComparison;
  (** [signal.set] on the keyword arguments, then waiting on the status: the
      exception either of them raised, if one did. *)
  signal_set : Signal -> option PrimitiveType -> option Number -> option Number ->
               World -> option Exn * World;
  (** [prepared_comparison.compare()] *)
  compare : PreparedSignalComparison -> World -> res Result * World;
  (** [run_passive_step(prepared_file)] *)
  run_passive_step : PreparedFile -> World -> res Result * World;
  (** [run_in_local_RE(item)] *)
  run_in_local_RE : PlanItem -> World -> res string * World;
  (** [existing_plans_and_devices_from_nspace(nspace=get_default_namespace())] *)
  load_namespace : World -> option Exn * World
}.

(** ** Preparation *)

Section Preparation.
Context {E : External}.

(** [Target.to_signal]: the device and attribute first, the raw PV second;
    every failure is swallowed and gives [None]. *)
Definition to_signal (self : Target) : option Signal :=
  let attempt : res (option Signal) :=
    if truthy (device self) && truthy (attr self) then
      match device self, attr self with
      | Some d, Some a => (signal <- get_happi_signal d a ;; Ok (Some signal))%res
      | _, _ => Ok None
      end
    else if truthy (pv self) then
      match pv self with
      | Some p => (signal <- signal_cache_get p ;; Ok (Some signal))%res
      | None => Ok None
      end
    else Ok None
  in
  match attempt with
  | Ok signal => signal
  | Raise _ => None
  end.

(** [PreparedValueToSignal.from_origin] *)
Definition PreparedValueToSignal_from_origin (origin : ValueToTarget) : res PreparedValueToSignal :=
  match to_signal (vt_target origin) with
  | None => Raise (ValueError ("Target specification invalid: " +++ repr_ValueToTarget origin))
  | Some signal =>
      Ok (mkPreparedValueToSignal (target_name (vt_target origin)) signal (value origin)
            origin incomplete_result)
  end.

(** [getattr(signal, 'pvname', '')] *)
Definition pvname_or_empty (signal : option Signal) : string :=
  match signal with
  | Some sg => match pvname sg with Some p => p | None => "" end
  | None => ""
  end.

(** [create_prepared_comparison] on a [ComparisonToTarget].  A failure of
    [from_signal] becomes an exception record, but building that record reads
    [comp.name], which itself raises when the check has no comparison. *)
Definition create_prepared_comparison (check : ComparisonToTarget) : res ComparisonOrException :=
  let signal := to_signal (ct_target check) in
  let comp := comparison check in
  match from_signal signal comp with
  | Ok output => Ok (IsComparison output)
  | Raise ex =>
      match comp with
      | Some c =>
          Ok (IsException
                (mkPreparedComparisonException ex (pvname_or_empty signal)
                   "Failed to initialize comparison" comp (comparison_name c)))
      | None => Raise (AttributeError "'NoneType' object has no attribute 'name'")
      end
  end.

(** A prepared step as its dataclass defaults leave it. *)
Definition new_prepared (nm : option string) (step : ProcedureStep) : PreparedFields :=
  mkPreparedFields nm step incomplete_result incomplete_result incomplete_result.

(** [PreparedDescriptionStep.from_origin] *)
Definition PreparedDescriptionStep_from_origin (step : ProcedureStep) : PreparedProcedureStep :=
  PreparedDescriptionStep (new_prepared (name (fields step)) step).

(** [PreparedPassiveStep.from_origin]: an [OSError] leaves the step without a
    file; any other exception leaves the function. *)
Definition PreparedPassiveStep_from_origin (step : ProcedureStep) (filepath : string)
  : res PreparedProcedureStep :=
  (prep_passive_file <-
     match load_passive_file filepath with
     | Ok f => Ok (Some f)
     | Raise ex => if exn_is_oserror ex then Ok None else Raise ex
     end ;;
   Ok (PreparedPassiveStep (new_prepared (name (fields step)) step) prep_passive_file))%res.

(** The first loop of [PreparedSetValueStep.from_origin]: the prepared
    actions and the actions that failed, each list in the order of
    [step.actions]. *)
Fixpoint prepare_actions (actions : list ValueToTarget)
    (prepared : list PreparedValueToSignal) (failures : list ValueToTarget)
  : list PreparedValueToSignal * list ValueToTarget :=
  match actions with
  | [] => (prepared, failures)
  | value_to_target :: rest =>
      match PreparedValueToSignal_from_origin value_to_target with
      | Ok prep_value_to_signal =>
          prepare_actions rest (prepared ++ [prep_value_to_signal]) failures
      | Raise _ => prepare_actions rest prepared (failures ++ [value_to_target])
      end
  end.

(** The second loop: it stops at the first check whose preparation raises. *)
Fixpoint prepare_criteria (criteria : list ComparisonToTarget)
    (prepared : list PreparedSignalComparison) (failures : list PreparedComparisonException)
  : res (list PreparedSignalComparison * list PreparedComparisonException) :=
  match criteria with
  | [] => Ok (prepared, failures)
  | comp_to_target :: rest =>
      (r <- create_prepared_comparison comp_to_target ;;
       match r with
       | IsException e => prepare_criteria rest prepared (failures ++ [e])
       | IsComparison c => prepare_criteria rest (prepared ++ [c]) failures
       end)%res
  end.

(** [PreparedSetValueStep.from_origin] *)
Definition PreparedSetValueStep_from_origin (step : ProcedureStep)
    (actions : list ValueToTarget) (success_criteria : list ComparisonToTarget)
  : res PreparedProcedureStep :=
  let '(prepared_actions, prepare_action_failures) := prepare_actions actions [] [] in
  (crit <- prepare_criteria success_criteria [] [] ;;
   let '(prepared_criteria, prepare_criteria_failures) := crit in
   Ok (PreparedSetValueStep (new_prepared (name (fields step)) step)
         prepared_actions prepare_action_failures
         prepared_criteria prepare_criteria_failures))%res.

(** [step.name] and [step.description or ''!r] as the f-string renders them. *)
Definition str_option (o : option string) : string :=
  match o with
  | Some s => s
  | None => "None"
  end.

Definition description_or_empty (o : option string) : string :=
  if truthy o then match o with Some s => s | None => "" end else "".

(** The [except Exception] branch of [PreparedProcedureStep.from_origin]. *)
Definition failed_step (step : ProcedureStep) (ex : Exn) : FailedStep :=
  mkFailedStep step
    (mkResult internal_error
       (ReasonStr ("Failed to instantiate step: " +++ str_exn ex +++ ". " +++
                   "Step is: " +++ str_option (name (fields step)) +++
                   " (" +++ py_repr (description_or_empty (description (fields step))) +++ ")")))
    incomplete_result incomplete_result (Some ex).

(** The [try] ... [except Exception] of [PreparedProcedureStep.from_origin]
    around the outcome of its body. *)
Definition catch_failed (step : ProcedureStep) (body : res PreparedProcedureStep) : AnyPrepared :=
  match body with
  | Ok st => Prepared st
  | Raise ex => Failed (failed_step step ex)
  end.

(** One turn of the loop of [PreparedProcedureGroup.from_origin]: a failed
    child goes to [prepare_failures], any other to [steps]. *)
Definition route (acc : list PreparedProcedureStep * list FailedStep) (prep_step : AnyPrepared)
  : list PreparedProcedureStep * list FailedStep :=
  match prep_step with
  | Failed fs => (fst acc, snd acc ++ [fs])
  | Prepared st => (fst acc ++ [st], snd acc)
  end.

(** The body of [PreparedProcedureStep.from_origin] inside its [try]: the
    dispatch on the step's class.  The group case is
    [PreparedProcedureGroup.from_origin], whose loop prepares every child
    through [PreparedProcedureStep.from_origin] again. *)
Fixpoint from_origin_body (step : ProcedureStep) : res PreparedProcedureStep :=
  match step with
  | ProcedureGroup _ children =>
      let '(steps, prepare_failures) :=
        fold_left (fun acc child => route acc (catch_failed child (from_origin_body child)))
          children ([], []) in
      Ok (PreparedProcedureGroup (new_prepared None step) steps prepare_failures)
  | DescriptionStep _ => Ok (PreparedDescriptionStep_from_origin step)
  | PassiveStep _ filepath => PreparedPassiveStep_from_origin step filepath
  | SetValueStep _ actions success_criteria _ _ =>
      PreparedSetValueStep_from_origin step actions success_criteria
  | PlanStep _ _ _ _ _ _ =>
      Raise (NotImplementedError ("Step type unsupported: " +++ type_repr step))
  end.

(** [PreparedProcedureStep.from_origin] *)
Definition PreparedProcedureStep_from_origin (step : ProcedureStep) : AnyPrepared :=
  catch_failed step (from_origin_body step).

(** [PreparedProcedureGroup.from_origin], for a group with these fields and
    children. *)
Definition PreparedProcedureGroup_from_origin (f : StepFields) (children : list ProcedureStep)
  : PreparedProcedureStep :=
  let '(steps, prepare_failures) :=
    fold_left (fun acc child => route acc (PreparedProcedureStep_from_origin child))
      children ([], []) in
  PreparedProcedureGroup (new_prepared None (ProcedureGroup f children)) steps prepare_failures.

End Preparation.

(** ** Results of a prepared step *)

(** [PreparedProcedureStep.result]: the verification and the step result, each
    counted only when the originating step requires it.  The property stores
    what it computed in [combined_result] before returning it. *)
Definition PreparedProcedureStep_result (self : PreparedFields) : Result * PreparedFields :=
  let results : list Result := [] in
  let text := "" in
  let '(results, text) :=
    if verify_required (fields (origin self)) then
      (results ++ [verify_result self],
       if negb (sev_eqb (severity (verify_result self)) success)
       then text +++ "Not Verified (" +++ format_reason (reason (verify_result self)) +++ ")"
       else text +++ "Verified (" +++ format_reason (reason (verify_result self)) +++ ")")
    else (results, text) in
  let '(results, text) :=
    if step_success_required (fields (origin self)) then
      (results ++ [step_result self],
       if negb (sev_eqb (severity (step_result self)) success)
       then text +++ ", Not Successful (" +++ format_reason (reason (step_result self)) +++ ")"
       else text)
    else (results, text) in
  match results with
  | [] =>
      (* Nothing required, auto-success *)
      (Result_default, set_combined_result self Result_default)
  | _ :: _ =>
      let sev := _summarize_result_severity all_ results in
      let combined := mkResult sev (ReasonStr text) in
      (combined, set_combined_result self combined)
  end.

(** [FailedStep.result] *)
Definition FailedStep_result (self : FailedStep) : Result := failed_combined_result self.

(** The result a group gives itself, in [run] and in [result] alike. *)
Definition group_step_result (prepare_failures : list FailedStep) (results : list Result) : Result :=
  match prepare_failures with
  | _ :: _ => mkResult error (ReasonStr "At least one step failed to initialize")
  | [] => mkResult (_summarize_result_severity all_ results) ReasonNone
  end.

Section PullResults.
Variable child_result : PreparedProcedureStep -> Result * PreparedProcedureStep.

(** The loop of [PreparedProcedureGroup.result]: every child's [result] is
    read in turn, which updates the child. *)
Fixpoint pull_results (steps : list PreparedProcedureStep)
  : list Result * list PreparedProcedureStep :=
  match steps with
  | [] => ([], [])
  | step :: rest =>
      let '(r, step') := child_result step in
      let '(rs, rest') := pull_results rest in
      (r :: rs, step' :: rest')
  end.
End PullResults.

(** The [result] property of any prepared step.  A group first re-pulls its
    children's results and overwrites its own [step_result]
    ([PreparedProcedureGroup.result]), then combines as every step does. *)
Fixpoint result (self : PreparedProcedureStep) : Result * PreparedProcedureStep :=
  match self with
  | PreparedProcedureGroup c steps prepare_failures =>
      let '(results, steps) := pull_results result steps in
      let c := set_step_result c (group_step_result prepare_failures results) in
      let '(r, c) := PreparedProcedureStep_result c in
      (r, PreparedProcedureGroup c steps prepare_failures)
  | _ =>
      let '(r, c) := PreparedProcedureStep_result (common self) in
      (r, with_common self c)
  end.

(** ** Running *)

Section Running.
Context {E : External}.

(** The world outside the process and the calls made into it so far. *)
Record Env : Type := mkEnv {
  world : World;
  trace : list Event
}.

Definition record (ev : Event) (w : World) (env : Env) : Env :=
  mkEnv w (trace env ++ [ev]).

(** [PreparedValueToSignal.run]: a failed write is an [error] result holding
    the exception; nothing is raised. *)
Definition PreparedValueToSignal_run (self : PreparedValueToSignal) (env : Env)
  : Result * PreparedValueToSignal * Env :=
  let tmo := timeout (pvts_origin self) in
  let settle := settle_time (pvts_origin self) in
  let '(raised, w) := signal_set (pvts_signal self) (pvts_value self) tmo settle (world env) in
  let env := record (SignalSet (pvts_signal self) (pvts_value self) tmo settle) w env in
  let r :=
    match raised with
    | Some ex => mkResult error (ReasonExc ex)
    | None => Result_default
    end in
  (r, mkPreparedValueToSignal (pvts_name self) (pvts_signal self) (pvts_value self)
        (pvts_origin self) r, env).

(** Attributes that only some step classes have. *)
Definition halt_on_fail_attr (step : ProcedureStep) : res bool :=
  match step with
  | SetValueStep _ _ _ h _ => Ok h
  | PlanStep _ _ _ _ h _ => Ok h
  | _ => Raise (AttributeError "object has no attribute 'halt_on_fail'")
  end.

Definition require_action_success_attr (step : ProcedureStep) : res bool :=
  match step with
  | SetValueStep _ _ _ _ r => Ok r
  | _ => Raise (AttributeError "object has no attribute 'require_action_success'")
  end.

Definition require_plan_success_attr (step : ProcedureStep) : res bool :=
  match step with
  | PlanStep _ _ _ _ _ r => Ok r
  | _ => Raise (AttributeError "object has no attribute 'require_plan_success'")
  end.

(** The first loop of [PreparedSetValueStep._run].  It gives the action the
    step halted at, if any, and the actions with their results updated. *)
Fixpoint run_actions (org : ProcedureStep) (actions : list PreparedValueToSignal) (env : Env)
  : res (option PreparedValueToSignal) * list PreparedValueToSignal * Env :=
  match actions with
  | [] => (Ok None, [], env)
  | prep_action :: rest =>
      let '(action_result, prep_action, env) := PreparedValueToSignal_run prep_action env in
      match halt_on_fail_attr org with
      | Raise ex => (Raise ex, prep_action :: rest, env)
      | Ok halt =>
          if halt && sev_gtb (severity action_result) success
          then (Ok (Some prep_action), prep_action :: rest, env)
          else
            let '(halted, rest, env) := run_actions org rest env in
            (halted, prep_action :: rest, env)
      end
  end.

(** The second loop: every criterion is compared, and [compare] leaves its
    result in the criterion; an exception from [compare] ends the loop. *)
Fixpoint run_criteria (criteria : list PreparedSignalComparison) (env : Env)
  : option Exn * list PreparedSignalComparison * Env :=
  match criteria with
  | [] => (None, [], env)
  | prep_criteria :: rest =>
      let '(outcome, w) := compare prep_criteria (world env) in
      let env := record (Compared prep_criteria) w env in
      match outcome with
      | Raise ex => (Some ex, prep_criteria :: rest, env)
      | Ok r =>
          let prep_criteria :=
            mkPreparedSignalComparison (psc_name prep_criteria) (psc_signal prep_criteria)
              (psc_comparison prep_criteria) r in
          let '(raised, rest, env) := run_criteria rest env in
          (raised, prep_criteria :: rest, env)
      end
  end.

(** [str] of a list of names, as an f-string renders a list. *)
Definition repr_name (o : option string) : string :=
  match o with
  | Some s => py_repr s
  | None => "None"
  end.

Definition repr_names (names : list (option string)) : string :=
  "[" +++ String.concat ", " (map repr_name names) +++ "]".

(** [PreparedSetValueStep._run] *)
Definition PreparedSetValueStep__run (c : PreparedFields)
    (prepared_actions : list PreparedValueToSignal)
    (prepare_action_failures : list ValueToTarget)
    (prepared_criteria : list PreparedSignalComparison)
    (prepare_criteria_failures : list PreparedComparisonException)
    (env : Env)
  : res Result * PreparedProcedureStep * Env :=
  let '(halted, prepared_actions, env) := run_actions (origin c) prepared_actions env in
  match halted with
  | Raise ex =>
      (Raise ex,
       PreparedSetValueStep c prepared_actions prepare_action_failures
         prepared_criteria prepare_criteria_failures, env)
  | Ok (Some prep_action) =>
      let r := mkResult error
                 (ReasonStr ("action failed (" +++ str_option (pvts_name prep_action) +++
                             "), step halted")) in
      (Ok r,
       PreparedSetValueStep (set_step_result c r) prepared_actions prepare_action_failures
         prepared_criteria prepare_criteria_failures, env)
  | Ok None =>
      let '(raised, prepared_criteria, env) := run_criteria prepared_criteria env in
      let self := PreparedSetValueStep c prepared_actions prepare_action_failures
                    prepared_criteria prepare_criteria_failures in
      match raised with
      | Some ex => (Raise ex, self, env)
      | None =>
          match require_action_success_attr (origin c) with
          | Raise ex => (Raise ex, self, env)
          | Ok require_action_success =>
              match require_action_success, prepare_action_failures with
              | true, _ :: _ =>
                  (Ok (mkResult error
                         (ReasonStr ("One or more actions failed to initialize: " +++
                                     repr_names (map (fun act => target_name (vt_target act))
                                                   prepare_action_failures)))),
                   self, env)
              | _, _ =>
                  let action_results :=
                    if require_action_success then map pvts_result prepared_actions else [] in
                  let criteria_results := map psc_result prepared_criteria in
                  match prepare_criteria_failures with
                  | _ :: _ =>
                      (Ok (mkResult error
                             (ReasonStr ("One or more success criteria failed to initialize: " +++
                                         repr_names (map pce_name prepare_criteria_failures)))),
                       self, env)
                  | [] =>
                      (Ok (mkResult
                             (_summarize_result_severity all_ (criteria_results ++ action_results))
                             ReasonNone),
                       self, env)
                  end
              end
          end
      end
  end.

(** [PreparedPassiveStep._run] *)
Definition PreparedPassiveStep__run (prepared_passive_file : option PreparedFile) (env : Env)
  : res Result * Env :=
  match prepared_passive_file with
  | None => (Ok (mkResult error (ReasonStr "No passive checkout to run")), env)
  | Some file =>
      let '(outcome, w) := run_passive_step file (world env) in
      (outcome, record (PassiveRun file) w env)
  end.

(** [make_plan_item] *)
Definition make_plan_item (plan_opts : PlanOptions) : PlanItem :=
  mkPlanItem (plan plan_opts) (plan_args plan_opts) (plan_kwargs plan_opts) "root".

(** [PreparedPlan.from_origin] *)
Definition PreparedPlan_from_origin (origin : PlanOptions) : PreparedPlan :=
  mkPreparedPlan (plan_name origin) origin (make_plan_item origin) None incomplete_result.

Definition set_plan_result (self : PreparedPlan) (r : Result) : PreparedPlan :=
  mkPreparedPlan (pp_name self) (pp_origin self) (pp_item self) (pp_uuid self) r.

Definition set_plan_uuid (self : PreparedPlan) (uuid : option string) : PreparedPlan :=
  mkPreparedPlan (pp_name self) (pp_origin self) (pp_item self) uuid (pp_result self).

(** [PreparedPlan.run]: the branch for a destination other than the local
    engine stores an [error] result and does not return; the plan is then
    handed to the local engine all the same, and the stored result is
    replaced. *)
Definition PreparedPlan_run (self : PreparedPlan) (destination : PlanDestination) (env : Env)
  : res Result * PreparedPlan * Env :=
  let self :=
    if negb (PlanDestination_eqb destination local_)
    then set_plan_result self
           (mkResult error (ReasonStr "Only local RunEngine supported at this time"))
    else self in
  let '(outcome, w) := run_in_local_RE (pp_item self) (world env) in
  let env := record (LocalRunEngine (pp_item self)) w env in
  match outcome with
  | Raise ex => (Raise ex, self, env)
  | Ok uuid =>
      let self := set_plan_uuid self (Some uuid) in
      let self := set_plan_result self Result_default in
      (Ok (pp_result self), self, env)
  end.

(** [PreparedPlanStep._run], up to where it can get: after the early return
    and the namespace lookup it reads [self.prep_plans], an attribute the
    class does not have, so nothing after that statement is ever reached. *)
Definition PreparedPlanStep__run (c : PreparedFields)
    (prepared_plan_failures : list PlanOptions) (env : Env)
  : res Result * Env :=
  match require_plan_success_attr (origin c) with
  | Raise ex => (Raise ex, env)
  | Ok require_plan_success =>
      match require_plan_success, prepared_plan_failures with
      | true, _ :: _ =>
          (Ok (mkResult error
                 (ReasonStr ("One or more actions failed to prepare: " +++
                             repr_names (map (fun p => Some (plan_name p))
                                           prepared_plan_failures)))),
           env)
      | _, _ =>
          let '(raised, w) := load_namespace (world env) in
          let env := record NamespaceLoaded w env in
          match raised with
          | Some ex => (Raise ex, env)
          | None =>
              (Raise (AttributeError
                        "'PreparedPlanStep' object has no attribute 'prep_plans'"), env)
          end
      end
  end.

(** [self._run()], dispatched on the class of the prepared step.  A group
    inherits the base [_run], which raises. *)
Definition _run (self : PreparedProcedureStep) (env : Env)
  : res Result * PreparedProcedureStep * Env :=
  match self with
  | PreparedProcedureGroup _ _ _ => (Raise (NotImplementedError ""), self, env)
  | PreparedDescriptionStep _ => (Ok Result_default, self, env)
  | PreparedPassiveStep _ prepared_passive_file =>
      let '(outcome, env) := PreparedPassiveStep__run prepared_passive_file env in
      (outcome, self, env)
  | PreparedSetValueStep c acts act_failures crits crit_failures =>
      PreparedSetValueStep__run c acts act_failures crits crit_failures env
  | PreparedPlanStep c _ plan_failures _ _ =>
      let '(outcome, env) := PreparedPlanStep__run c plan_failures env in
      (outcome, self, env)
  end.

(** [PreparedProcedureStep.run] over a given [_run]: an exception becomes an
    [internal_error] result, the result is stashed in [step_result], and the
    combined result is returned. *)
Definition PreparedProcedureStep_run
    (_run : PreparedProcedureStep -> Env -> res Result * PreparedProcedureStep * Env)
    (self : PreparedProcedureStep) (env : Env)
  : res Result * PreparedProcedureStep * Env :=
  let '(outcome, self, env) := _run self env in
  let step_result :=
    match outcome with
    | Ok r => r
    | Raise ex => mkResult internal_error (ReasonStr (str_exn ex))
    end in
  (* stash step result *)
  let self := with_common self (set_step_result (common self) step_result) in
  (* return the overall result, including verification *)
  let '(r, self) := result self in
  (Ok r, self, env).

Section RunSteps.
Variable child_run : PreparedProcedureStep -> Env -> res Result * PreparedProcedureStep * Env.

(** The loop of [PreparedProcedureGroup.run]: the children run in order; were
    one to raise, the loop would end there. *)
Fixpoint run_steps (steps : list PreparedProcedureStep) (env : Env)
  : res (list Result) * list PreparedProcedureStep * Env :=
  match steps with
  | [] => (Ok [], [], env)
  | step :: rest =>
      let '(outcome, step, env) := child_run step env in
      match outcome with
      | Raise ex => (Raise ex, step :: rest, env)
      | Ok r =>
          let '(outcomes, rest, env) := run_steps rest env in
          (res_bind outcomes (fun rs => Ok (r :: rs)), step :: rest, env)
      end
  end.
End RunSteps.

(** [run()] of any prepared step: [PreparedProcedureGroup.run] for a group,
    [PreparedProcedureStep.run] for every other class. *)
Fixpoint run (self : PreparedProcedureStep) (env : Env)
  : res Result * PreparedProcedureStep * Env :=
  match self with
  | PreparedProcedureGroup c steps prepare_failures =>
      let '(outcomes, steps, env) := run_steps run steps env in
      match outcomes with
      | Raise ex => (Raise ex, PreparedProcedureGroup c steps prepare_failures, env)
      | Ok results =>
          let c := set_step_result c (group_step_result prepare_failures results) in
          let '(r, self) := result (PreparedProcedureGroup c steps prepare_failures) in
          (Ok r, self, env)
      end
  | _ => PreparedProcedureStep_run _run self env
  end.

End Running.

(** ** Vocabulary of the properties *)

(** The prepared and the failed members of a list of preparation outcomes,
    each in the order of the list. *)
Definition prepared_of (l : list AnyPrepared) : list PreparedProcedureStep :=
  flat_map (fun p => match p with Prepared st => [st] | Failed _ => [] end) l.

Definition failed_of (l : list AnyPrepared) : list FailedStep :=
  flat_map (fun p => match p with Prepared _ => [] | Failed fs => [fs] end) l.

Definition group_steps (self : PreparedProcedureStep) : list PreparedProcedureStep :=
  match self with
  | PreparedProcedureGroup _ steps _ => steps
  | _ => []
  end.

Definition group_prepare_failures (self : PreparedProcedureStep) : list FailedStep :=
  match self with
  | PreparedProcedureGroup _ _ prepare_failures => prepare_failures
  | _ => []
  end.

Definition is_group (self : PreparedProcedureStep) : bool :=
  match self with
  | PreparedProcedureGroup _ _ _ => true
  | _ => false
  end.

(** What [run] stashes for an outcome of [_run]. *)
Definition stashed (outcome : res Result) : Result :=
  match outcome with
  | Ok r => r
  | Raise ex => mkResult internal_error (ReasonStr (str_exn ex))
  end.

(** The reason [from_origin] gives a step it could not prepare. *)
Definition failure_reason {E : External} (step : ProcedureStep) (ex : Exn) : string :=
  "Failed to instantiate step: " +++ str_exn ex +++ ". Step is: " +++
  str_option (name (fields step)) +++
  " (" +++ py_repr (description_or_empty (description (fields step))) +++ ")".

(** The given actions run one after the other, whatever their results. *)
Fixpoint run_each {E : External} (actions : list PreparedValueToSignal) (env : Env)
  : list PreparedValueToSignal * Env :=
  match actions with
  | [] => ([], env)
  | a :: rest =>
      let '(_, a', env1) := PreparedValueToSignal_run a env in
      let '(rest', env2) := run_each rest env1 in
      (a' :: rest', env2)
  end.

Definition set_event (a : PreparedValueToSignal) : Event :=
  SignalSet (pvts_signal a) (pvts_value a) (timeout (pvts_origin a))
    (settle_time (pvts_origin a)).

Definition action_failed (a : PreparedValueToSignal) : bool :=
  sev_gtb (severity (pvts_result a)) success.

(** The stand-in's [incomplete_result()]: a warning, as the step has not
    been evaluated yet. *)
Definition incomplete : Result := mkResult warning (ReasonStr "step incomplete").

(** A stand-in for the collaborators, for concrete runs: the world counts the
    calls made into it; PVs resolve through the cache unless they start with
    a question mark; a write to the PV [X:FAIL] times out; no device is
    known and no passive file can be read. *)
Definition bench : External := {|
  World := nat;
  incomplete_result := incomplete;
  py_repr := fun s => "'" +++ s +++ "'";
  repr_ValueToTarget := fun v => "ValueToTarget(name=" +++ str_option (target_name (vt_target v)) +++ ")";
  get_happi_signal := fun d _ => Raise (mkExn "SearchError" false ("No device found: " +++ d));
  signal_cache_get := fun p =>
    if String.prefix "?" p then Raise (mkExn "KeyError" false p) else Ok (mkSignal p (Some p));
  load_passive_file := fun path => Raise (mkExn "FileNotFoundError" true path);
  from_signal := fun sg comp =>
    match sg, comp with
    | Some _, Some c => Ok (mkPreparedSignalComparison (comparison_name c) sg comp incomplete)
    | _, _ => Raise (mkExn "ValueError" false "Signal or comparison missing")
    end;
  signal_set := fun sg _ _ _ w =>
    (if String.eqb (signal_key sg) "X:FAIL"
     then Some (mkExn "TimeoutError" false "write timed out") else None, S w);
  compare := fun _ w => (Ok Result_default, S w);
  run_passive_step := fun _ w => (Ok Result_default, S w);
  run_in_local_RE := fun _ w => (Ok "b1946ac9", S w);
  load_namespace := fun w => (None, S w)
|}.

Definition bench_env : @Env bench := @mkEnv bench 0 [].

(** The result a group gives itself when a child could not be prepared. *)
Definition failed_to_initialize : Result :=
  mkResult error (ReasonStr "At least one step failed to initialize").

(** The severity a group with a preparation failure reports: its own
    [error], counted if step success is required of the group, next to the
    verification result, counted if verification is required of it. *)
Definition reported_with_failures (c : PreparedFields) : Severity :=
  sev_max
    (if verify_required (fields (origin c)) then severity (verify_result c) else success)
    (if step_success_required (fields (origin c)) then error else success).

(** What the strict example group returns from its run: its own error, and
    nothing about verification, which is not required of it. *)
Definition failed_to_initialize_combined : Result :=
  mkResult error (ReasonStr ", Not Successful (At least one step failed to initialize)").

(** ** Example procedures *)

(** A passive step that counts for nothing: neither verification nor step
    success is required, and its run found no checkout file. *)
Definition unchecked_passive : PreparedProcedureStep :=
  PreparedPassiveStep
    (mkPreparedFields (Some "optional checkout")
       (PassiveStep (mkStepFields (Some "optional checkout") None false false) "missing.json")
       incomplete incomplete
       (mkResult error (ReasonStr "No passive checkout to run")))
    None.

(** A set-value step with one check that names no comparison, on a PV that
    does not resolve. *)
Definition step_with_bad_check : ProcedureStep :=
  SetValueStep (mkStepFields (Some "set X") (Some "write and read back") true true)
    [mkValueToTarget (mkTarget (Some "x") None None (Some "X:SET")) (Some (PInt 5)) None None]
    [mkComparisonToTarget (mkTarget (Some "x_rbv") None None (Some "?X:RBV")) None]
    true true.

Definition scan_step : ProcedureStep :=
  PlanStep (mkStepFields (Some "scan") None true true)
    [mkPlanOptions "scan" "count" [] []] [] local_ true true.

Definition note (title : string) (verify_required step_success_required : bool) : ProcedureStep :=
  DescriptionStep (mkStepFields (Some title) None verify_required step_success_required).

(** A group in which nothing is required, with one child that cannot be
    prepared and two narrative children, nothing required of them either. *)
Definition lenient_group : ProcedureStep :=
  ProcedureGroup (mkStepFields (Some "checkout") None false false)
    [scan_step; note "intro" false false; note "outro" false false].

(** The same group with step success required of it. *)
Definition strict_group : ProcedureStep :=
  ProcedureGroup (mkStepFields (Some "checkout") None false true)
    [scan_step; note "intro" false false; note "outro" false false].

Definition write_to (pvname : string) (v : Z) : PreparedValueToSignal :=
  mkPreparedValueToSignal (Some pvname) (mkSignal pvname (Some pvname)) (Some (PInt v))
    (mkValueToTarget (mkTarget (Some pvname) None None (Some pvname)) (Some (PInt v)) None None)
    incomplete.

Definition read_back (pvname : string) : PreparedSignalComparison :=
  mkPreparedSignalComparison (Some pvname) (Some (mkSignal pvname (Some pvname)))
    (Some (mkComparison (Some pvname) "Equals(5)")) incomplete.

(** A prepared set-value step that halts on failure, with three writes, the
    second of which fails on the bench, and one check. *)
Definition halting_step : PreparedProcedureStep :=
  PreparedSetValueStep
    (mkPreparedFields (Some "set X")
       (SetValueStep (mkStepFields (Some "set X") None false true) [] [] true true)
       incomplete incomplete incomplete)
    [write_to "X:SET" 5; write_to "X:FAIL" 1; write_to "Y:SET" 2] []
    [read_back "X:RBV"] [].

Definition count_plan : PreparedPlan :=
  mkPreparedPlan "scan" (mkPlanOptions "scan" "count" [] [])
    (make_plan_item (mkPlanOptions "scan" "count" [] [])) None incomplete.

(** ** Walking procedures and procedure files *)

(** [walk_steps] (module level): the step itself, then, depth first, the
    steps of whatever has a [steps] attribute, which among the edit steps is
    the group. *)
Fixpoint walk_steps (step : ProcedureStep) : list ProcedureStep :=
  step :: match step with
          | ProcedureGroup _ steps => flat_map walk_steps steps
          | _ => []
          end.

(** [ProcedureGroup.walk_steps]: each step of the group, followed by the walk
    of that step when it is a group itself.  Only groups have the method,
    and it is only ever called on groups. *)
Fixpoint ProcedureGroup_walk_steps (self : ProcedureStep) : list ProcedureStep :=
  match self with
  | ProcedureGroup _ steps =>
      flat_map (fun step =>
                  step :: match step with
                          | ProcedureGroup _ _ => ProcedureGroup_walk_steps step
                          | _ => []
                          end) steps
  | _ => []
  end.

(** [ProcedureFile]: its [root] is a [ProcedureGroup], kept here as the
    group's fields and steps. *)
Record ProcedureFile : Set := mkProcedureFile {
  version : nat;
  root_fields : StepFields;
  root_steps : list ProcedureStep
}.

Definition root (file : ProcedureFile) : ProcedureStep :=
  ProcedureGroup (root_fields file) (root_steps file).

(** [ProcedureFile.walk_steps] *)
Definition ProcedureFile_walk_steps (self : ProcedureFile) : list ProcedureStep :=
  root self :: ProcedureGroup_walk_steps (root self).

(** [PreparedProcedureFile] (its root's [parent] link to the file left out,
    as every parent link is). *)
Record PreparedProcedureFile : Set := mkPreparedProcedureFile {
  file : ProcedureFile;
  prepared_root : PreparedProcedureStep
}.

(** [PreparedProcedureFile.from_origin] *)
Definition PreparedProcedureFile_from_origin {E : External} (file : ProcedureFile)
  : PreparedProcedureFile :=
  mkPreparedProcedureFile file
    (PreparedProcedureGroup_from_origin (root_fields file) (root_steps file)).

(** [PreparedProcedureFile.run] *)
Definition PreparedProcedureFile_run {E : External} (self : PreparedProcedureFile) (env : Env)
  : res Result * PreparedProcedureFile * Env :=
  let '(outcome, prepared_root, env) := run (prepared_root self) env in
  (outcome, mkPreparedProcedureFile (file self) prepared_root, env).

(** ** Further vocabulary *)

(** The nodes of a prepared tree, depth first. *)
Fixpoint prepared_nodes (st : PreparedProcedureStep) : list PreparedProcedureStep :=
  st :: match st with
        | PreparedProcedureGroup _ steps _ => flat_map prepared_nodes steps
        | _ => []
        end.

(** The edit steps a prepared tree answers for: the origin of every prepared
    node and of every step that failed to prepare. *)
Fixpoint accounted (st : PreparedProcedureStep) : list ProcedureStep :=
  origin (common st) ::
  match st with
  | PreparedProcedureGroup _ steps prepare_failures =>
      map failed_origin prepare_failures ++ flat_map accounted steps
  | _ => []
  end.

(** The stored results of a prepared tree agree with one another: every
    node's [combined_result] is what its [result] combination gives from its
    stored verification and step results, and every group's [step_result] is
    what the group makes of its children's stored combined results. *)
#[warnings="-register-all"]
Inductive consistent : PreparedProcedureStep -> Prop :=
| consistent_leaf (st : PreparedProcedureStep) :
    is_group st = false ->
    combined_result (common st) = fst (PreparedProcedureStep_result (common st)) ->
    consistent st
| consistent_group (c : PreparedFields) (steps : list PreparedProcedureStep)
    (prepare_failures : list FailedStep) :
    Forall consistent steps ->
    step_result c =
      group_step_result prepare_failures (map (fun s => combined_result (common s)) steps) ->
    combined_result c = fst (PreparedProcedureStep_result c) ->
    consistent (PreparedProcedureGroup c steps prepare_failures).

(** Whether the target of an action resolves to a signal. *)
Definition resolves {E : External} (a : ValueToTarget) : bool :=
  match to_signal (vt_target a) with
  | Some _ => true
  | None => false
  end.

Definition is_local_run (e : Event) : bool :=
  match e with
  | LocalRunEngine _ => true
  | _ => false
  end.

Definition is_plan_step (st : PreparedProcedureStep) : bool :=
  match st with
  | PreparedPlanStep _ _ _ _ _ => true
  | _ => false
  end.

(** Whether preparing a check raises: it names no comparison and
    [from_signal] fails on what its target resolves to. *)
Definition check_unpreparable {E : External} (check : ComparisonToTarget) : bool :=
  match comparison check, from_signal (to_signal (ct_target check)) (comparison check) with
  | None, Raise _ => true
  | _, _ => false
  end.

(** A prepared tree with everything [result] recomputes blanked: every
    [combined_result], and the [step_result] of every group. *)
Fixpoint forget_caches (st : PreparedProcedureStep) : PreparedProcedureStep :=
  match st with
  | PreparedProcedureGroup c steps prepare_failures =>
      PreparedProcedureGroup
        (set_step_result (set_combined_result c Result_default) Result_default)
        (map forget_caches steps) prepare_failures
  | _ => with_common st (set_combined_result (common st) Result_default)
  end.

(** The originating step and the verification result of every node of a
    prepared tree, depth first. *)
Fixpoint verifications (st : PreparedProcedureStep) : list (ProcedureStep * Result) :=
  (origin (common st), verify_result (common st)) ::
  match st with
  | PreparedProcedureGroup _ steps _ => flat_map verifications steps
  | _ => []
  end.


(** A prepared set-value step that does not halt and does not require
    action success, with the three writes of [halting_step] and the given
    criteria. *)
Definition tolerant_step (criteria : list PreparedSignalComparison) : PreparedProcedureStep :=
  PreparedSetValueStep
    (mkPreparedFields (Some "set X")
       (SetValueStep (mkStepFields (Some "set X") None false true) [] [] false false)
       incomplete incomplete incomplete)
    [write_to "X:SET" 5; write_to "X:FAIL" 1; write_to "Y:SET" 2] [] criteria [].

(** The given prepared steps run one after the other, each in the world the
    one before it left, whatever they return. *)
Fixpoint run_in_turn {E : External} (steps : list PreparedProcedureStep) (env : Env)
  : list PreparedProcedureStep * Env :=
  match steps with
  | [] => ([], env)
  | s :: rest =>
      let '(_, s', env1) := run s env in
      let '(rest', env2) := run_in_turn rest env1 in
      (s' :: rest', env2)
  end.

Definition with_pv (t : Target) (p : option string) : Target :=
  mkTarget (target_name t) (device t) (attr t) p.

Definition with_device_attr (t : Target) (d a : option string) : Target :=
  mkTarget (target_name t) d a (pv t).

(** A narrative step that requires verification, with the given verdict of
    the user, as a run leaves it after the user had refused it: the step
    itself succeeded and the combined result records the refusal. *)
Definition reviewed_note (verdict : Result) : PreparedProcedureStep :=
  PreparedDescriptionStep
    (mkPreparedFields (Some "read me") (note "read me" true true)
       (mkResult error (ReasonStr "Not Verified (refused)")) verdict Result_default).

Definition reviewed_group_origin : ProcedureStep :=
  ProcedureGroup (mkStepFields (Some "checkout") None false true) [note "read me" true true].

(** A group of which step success is required, around that step, as its run
    leaves it after the refusal, with the given verification result of its
    own and the given verdict on the child. *)
Definition reviewed_group (v verdict : Result) : PreparedProcedureStep :=
  PreparedProcedureGroup
    (mkPreparedFields None reviewed_group_origin
       (mkResult error (ReasonStr ", Not Successful (None)")) v (mkResult error ReasonNone))
    [reviewed_note verdict] [].

(** ** Facts about severities *)

Lemma sev_value_inj (a b : Severity) : severity_value a = severity_value b -> a = b.
Proof. destruct a, b; simpl; intros H; try reflexivity; discriminate H. Qed.

Lemma sev_le_refl (a : Severity) : sev_le a a.
Proof. unfold sev_le; lia. Qed.

Lemma sev_le_trans (a b c : Severity) : sev_le a b -> sev_le b c -> sev_le a c.
Proof. unfold sev_le; lia. Qed.

Lemma sev_le_antisym (a b : Severity) : sev_le a b -> sev_le b a -> a = b.
Proof. unfold sev_le; intros; apply sev_value_inj; lia. Qed.

Lemma success_least (a : Severity) : sev_le success a.
Proof. unfold sev_le; simpl; lia. Qed.

Lemma sev_max_ub_l (a b : Severity) : sev_le a (sev_max a b).
Proof.
  unfold sev_max, sev_leb, sev_le.
  destruct (Nat.leb_spec (severity_value a) (severity_value b)); lia.
Qed.

Lemma sev_max_ub_r (a b : Severity) : sev_le b (sev_max a b).
Proof.
  unfold sev_max, sev_leb, sev_le.
  destruct (Nat.leb_spec (severity_value a) (severity_value b)); lia.
Qed.

Lemma sev_max_cases (a b : Severity) : sev_max a b = a \/ sev_max a b = b.
Proof. unfold sev_max; destruct (sev_leb a b); auto. Qed.

Lemma sev_max_success_r (a : Severity) : sev_max a success = a.
Proof. destruct a; reflexivity. Qed.

Lemma sev_max_success_l (a : Severity) : sev_max success a = a.
Proof. destruct a; reflexivity. Qed.

Lemma maximum_upper_bound (l : list Severity) :
  Forall (fun s => sev_le s (get_maximum_severity l)) l.
Proof.
  induction l as [|s l IH]; simpl; constructor.
  - apply sev_max_ub_l.
  - eapply Forall_impl; [|exact IH].
    intros x Hx; simpl in Hx.
    eapply sev_le_trans; [exact Hx|apply sev_max_ub_r].
Qed.

Lemma maximum_attained (l : list Severity) :
  l <> [] -> In (get_maximum_severity l) l.
Proof.
  induction l as [|s l IH]; [congruence|intros _].
  simpl. destruct l as [|s' l'].
  - left. simpl. now rewrite sev_max_success_r.
  - destruct (sev_max_cases s (get_maximum_severity (s' :: l'))) as [E|E]; rewrite E.
    + now left.
    + right. apply IH. discriminate.
Qed.

Lemma summarize_app (xs ys : list Result) :
  _summarize_result_severity all_ (xs ++ ys) =
  sev_max (_summarize_result_severity all_ xs) (_summarize_result_severity all_ ys).
Proof.
  unfold _summarize_result_severity, get_maximum_severity.
  induction xs as [|x xs IH]; simpl.
  - now rewrite sev_max_success_l.
  - rewrite IH. generalize (severity x) (fold_right sev_max success (map severity xs))
      (fold_right sev_max success (map severity ys)).
    intros a b c; destruct a, b, c; reflexivity.
Qed.

(** ** Aggregation *)

Lemma summarize_upper_bound (results : list Result) :
  Forall (fun r => sev_le (severity r) (_summarize_result_severity all_ results)) results.
Proof.
  unfold _summarize_result_severity.
  pose proof (maximum_upper_bound (map severity results)) as H.
  rewrite Forall_map in H. exact H.
Qed.

Lemma summarize_attained (results : list Result) :
  results <> [] ->
  Exists (fun r => severity r = _summarize_result_severity all_ results) results.
Proof.
  intros Hne. unfold _summarize_result_severity.
  assert (Hm : map severity results <> []) by (destruct results; [congruence|discriminate]).
  apply maximum_attained in Hm. apply in_map_iff in Hm as (r & Hr & Hin).
  apply Exists_exists. exists r. split; [exact Hin|exact Hr].
Qed.

(** C1: under [all_] the aggregate severity is the maximum of the input
    severities: it bounds every input from above and, unless the input is
    empty, it is the severity of one of the inputs; the empty input gives
    success.  The same holds for the result a group without preparation
    failures gives itself from its children's results. *)
Theorem summarize_all_is_maximum (results : list Result) :
  Forall (fun r => sev_le (severity r) (_summarize_result_severity all_ results)) results /\
  (results = [] /\ _summarize_result_severity all_ results = success \/
   Exists (fun r => severity r = _summarize_result_severity all_ results) results) /\
  _summarize_result_severity all_ [] = success /\
  severity (group_step_result [] results) = _summarize_result_severity all_ results.
Proof.
  split; [apply summarize_upper_bound|].
  split; [|split; reflexivity].
  destruct results as [|r rs].
  - left. split; reflexivity.
  - right. apply summarize_attained. discriminate.
Qed.

(** ** The combined result of a step *)

(* Case analysis on the two flags of the originating step. *)
Ltac by_flags self :=
  destruct (verify_required (fields (origin self))),
           (step_success_required (fields (origin self))).

Lemma step_result_fields (self : PreparedFields) :
  snd (PreparedProcedureStep_result self) =
  set_combined_result self (fst (PreparedProcedureStep_result self)).
Proof.
  unfold PreparedProcedureStep_result. by_flags self; reflexivity.
Qed.

Lemma step_result_severity (self : PreparedFields) :
  severity (fst (PreparedProcedureStep_result self)) =
  sev_max
    (if verify_required (fields (origin self)) then severity (verify_result self) else success)
    (if step_success_required (fields (origin self)) then severity (step_result self) else success).
Proof.
  unfold PreparedProcedureStep_result. by_flags self; simpl;
    rewrite ?sev_max_success_r, ?sev_max_success_l; reflexivity.
Qed.

Lemma step_result_ignores_combined (self : PreparedFields) (r : Result) :
  fst (PreparedProcedureStep_result (set_combined_result self r)) =
  fst (PreparedProcedureStep_result self).
Proof.
  unfold PreparedProcedureStep_result; simpl. by_flags self; reflexivity.
Qed.

Lemma result_not_group (self : PreparedProcedureStep) :
  is_group self = false ->
  result self =
  (fst (PreparedProcedureStep_result (common self)),
   with_common self (snd (PreparedProcedureStep_result (common self)))).
Proof.
  destruct self; simpl; try discriminate; intros _;
    destruct (PreparedProcedureStep_result c); reflexivity.
Qed.

Lemma result_group (c : PreparedFields) (steps : list PreparedProcedureStep)
    (prepare_failures : list FailedStep) :
  result (PreparedProcedureGroup c steps prepare_failures) =
  let pulled := pull_results result steps in
  let c1 := set_step_result c (group_step_result prepare_failures (fst pulled)) in
  (fst (PreparedProcedureStep_result c1),
   PreparedProcedureGroup (snd (PreparedProcedureStep_result c1)) (snd pulled) prepare_failures).
Proof.
  simpl. destruct (pull_results result steps) as [rs steps']. simpl.
  destruct (PreparedProcedureStep_result _); reflexivity.
Qed.

Lemma result_common (self : PreparedProcedureStep) :
  exists sr,
    fst (result self) = fst (PreparedProcedureStep_result (set_step_result (common self) sr)) /\
    common (snd (result self)) =
      snd (PreparedProcedureStep_result (set_step_result (common self) sr)) /\
    (is_group self = false -> sr = step_result (common self)).
Proof.
  destruct self as [c steps fs|c|c pf|c a af k kf|c p pf k kf].
  - rewrite result_group. cbv zeta. eexists. split; [reflexivity|]. split; [reflexivity|].
    discriminate.
  - exists (step_result c). rewrite result_not_group by reflexivity.
    destruct c; simpl. repeat split.
  - exists (step_result c). rewrite result_not_group by reflexivity.
    destruct c; simpl. repeat split.
  - exists (step_result c). rewrite result_not_group by reflexivity.
    destruct c; simpl. repeat split.
  - exists (step_result c). rewrite result_not_group by reflexivity.
    destruct c; simpl. repeat split.
Qed.

(** C6: when the originating step requires neither verification nor step
    success, the result property gives [Result()], severity success,
    whatever the stored step result is; this holds for groups too. *)
Theorem result_without_requirements_is_success (self : PreparedProcedureStep) :
  verify_required (fields (origin (common self))) = false ->
  step_success_required (fields (origin (common self))) = false ->
  fst (result self) = Result_default /\ severity (fst (result self)) = success.
Proof.
  intros Hv Hs.
  destruct (result_common self) as (sr & Hr & _ & _).
  rewrite Hr. unfold PreparedProcedureStep_result.
  assert (Ho : origin (set_step_result (common self) sr) = origin (common self)) by reflexivity.
  rewrite Ho, Hv, Hs. split; reflexivity.
Qed.

(** C6, at a passive step whose run ended in [error]. *)
Lemma result_without_requirements_is_success_witness :
  severity (step_result (common unchecked_passive)) = error /\
  fst (result unchecked_passive) = Result_default /\
  severity (fst (result unchecked_passive)) = success.
Proof.
  split; [reflexivity|].
  apply (result_without_requirements_is_success unchecked_passive); reflexivity.
Defined.

(** ** Preparation never raises *)

Section PreparationFacts.
Context {E : External}.

Lemma fold_route (prep : ProcedureStep -> AnyPrepared) (children : list ProcedureStep)
    (steps : list PreparedProcedureStep) (failures : list FailedStep) :
  fold_left (fun acc child => route acc (prep child)) children (steps, failures) =
  (steps ++ prepared_of (map prep children), failures ++ failed_of (map prep children)).
Proof.
  revert steps failures.
  induction children as [|child rest IH]; intros steps failures; simpl.
  - now rewrite !app_nil_r.
  - destruct (prep child) as [st|fs]; simpl; rewrite IH; simpl.
    + now rewrite <- app_assoc.
    + now rewrite <- app_assoc.
Qed.

Lemma prepared_failed_length (l : list AnyPrepared) :
  length (prepared_of l) + length (failed_of l) = length l.
Proof.
  induction l as [|[st|fs] l IH]; simpl; lia.
Qed.

Lemma group_body (f : StepFields) (children : list ProcedureStep) :
  from_origin_body (ProcedureGroup f children) =
  Ok (PreparedProcedureGroup_from_origin f children).
Proof.
  unfold PreparedProcedureGroup_from_origin, PreparedProcedureStep_from_origin.
  simpl. rewrite fold_route. reflexivity.
Qed.

Lemma group_from_origin_partition (f : StepFields) (children : list ProcedureStep) :
  PreparedProcedureGroup_from_origin f children =
  PreparedProcedureGroup (new_prepared None (ProcedureGroup f children))
    (prepared_of (map PreparedProcedureStep_from_origin children))
    (failed_of (map PreparedProcedureStep_from_origin children)).
Proof.
  unfold PreparedProcedureGroup_from_origin. rewrite fold_route. reflexivity.
Qed.

(** C2: whatever exception the preparation of a step raises, [from_origin]
    returns a [FailedStep] that holds that exception, the step, and an
    [internal_error] result whose reason names the exception and the step. *)
Theorem from_origin_converts_exceptions (step : ProcedureStep) (ex : Exn) :
  from_origin_body step = Raise ex ->
  exists fs : FailedStep,
    PreparedProcedureStep_from_origin step = Failed fs /\
    exception fs = Some ex /\
    failed_origin fs = step /\
    failed_combined_result fs = mkResult internal_error (ReasonStr (failure_reason step ex)) /\
    severity (FailedStep_result fs) = internal_error.
Proof.
  intros Hbody. exists (failed_step step ex).
  unfold PreparedProcedureStep_from_origin. rewrite Hbody. simpl.
  repeat split.
Qed.

Lemma from_origin_failed_inv (step : ProcedureStep) (fs : FailedStep) :
  PreparedProcedureStep_from_origin step = Failed fs ->
  exists ex, from_origin_body step = Raise ex /\ fs = failed_step step ex.
Proof.
  unfold PreparedProcedureStep_from_origin.
  destruct (from_origin_body step) as [st|ex]; simpl; intros H.
  - discriminate H.
  - exists ex. split; [reflexivity|]. now injection H as <-.
Qed.

Lemma plan_step_unsupported (f : StepFields) (plans : list PlanOptions)
    (checks : list ComparisonToTarget) (d : PlanDestination) (h r : bool) :
  from_origin_body (PlanStep f plans checks d h r) =
  Raise (NotImplementedError
           "Step type unsupported: <class 'atef.procedure.PlanStep'>").
Proof. reflexivity. Qed.

End PreparationFacts.

(** C2, at a set-value step one of whose checks has no comparison: the
    exception comes from the nested [create_prepared_comparison]. *)
Lemma from_origin_converts_exceptions_witness :
  exists fs : FailedStep,
    @PreparedProcedureStep_from_origin bench step_with_bad_check = Failed fs /\
    exception fs = Some (AttributeError "'NoneType' object has no attribute 'name'") /\
    failed_origin fs = step_with_bad_check /\
    failed_combined_result fs =
      mkResult internal_error
        (ReasonStr (@failure_reason bench step_with_bad_check
                      (AttributeError "'NoneType' object has no attribute 'name'"))) /\
    severity (FailedStep_result fs) = internal_error.
Proof.
  apply (@from_origin_converts_exceptions bench step_with_bad_check). reflexivity.
Defined.

(** ** Reading results *)

Lemma pull_results_map (f : PreparedProcedureStep -> Result * PreparedProcedureStep)
    (steps : list PreparedProcedureStep) :
  pull_results f steps = (map (fun s => fst (f s)) steps, map (fun s => snd (f s)) steps).
Proof.
  induction steps as [|s rest IH]; simpl; [reflexivity|].
  rewrite IH. destruct (f s); reflexivity.
Qed.

Lemma with_common_common (self : PreparedProcedureStep) (c : PreparedFields) :
  common (with_common self c) = c.
Proof. destruct self; reflexivity. Qed.

Lemma with_common_twice (self : PreparedProcedureStep) (c d : PreparedFields) :
  with_common (with_common self c) d = with_common self d.
Proof. destruct self; reflexivity. Qed.

Lemma with_common_is_group (self : PreparedProcedureStep) (c : PreparedFields) :
  is_group (with_common self c) = is_group self.
Proof. destruct self; reflexivity. Qed.

Lemma result_is_group (self : PreparedProcedureStep) :
  is_group (snd (result self)) = is_group self.
Proof.
  destruct self; try (rewrite result_not_group by reflexivity; reflexivity).
  rewrite result_group. reflexivity.
Qed.

Lemma result_stores (self : PreparedProcedureStep) :
  combined_result (common (snd (result self))) = fst (result self).
Proof.
  destruct (result_common self) as (sr & Hr & Hc & _).
  rewrite Hc, Hr, step_result_fields. reflexivity.
Qed.

Lemma result_keeps_failures (self : PreparedProcedureStep) :
  group_prepare_failures (snd (result self)) = group_prepare_failures self.
Proof.
  destruct self; try (rewrite result_not_group by reflexivity; reflexivity).
  rewrite result_group. reflexivity.
Qed.

(** ** Running never raises *)

Section RunningFacts.
Context {E : External}.

Lemma _run_shape (self : PreparedProcedureStep) (env : Env) :
  is_group (snd (fst (_run self env))) = is_group self /\
  origin (common (snd (fst (_run self env)))) = origin (common self) /\
  verify_result (common (snd (fst (_run self env)))) = verify_result (common self).
Proof.
  destruct self as [c steps fs|c|c pf|c a af k kf|c p pf k kf]; simpl.
  - repeat split.
  - repeat split.
  - destruct (PreparedPassiveStep__run pf env); repeat split.
  - unfold PreparedSetValueStep__run.
    destruct (run_actions (origin c) a env) as [[halted a'] env1].
    destruct halted as [[hit|]|ex]; simpl; try (repeat split; fail).
    destruct (run_criteria k env1) as [[raised k'] env2].
    destruct raised as [ex|]; simpl; try (repeat split; fail).
    destruct (require_action_success_attr (origin c)) as [[|]|ex]; simpl;
      destruct af, kf; simpl; repeat split.
  - destruct (PreparedPlanStep__run c pf env); repeat split.
Qed.

Lemma run_not_group (self : PreparedProcedureStep) (env : Env) :
  is_group self = false -> run self env = PreparedProcedureStep_run _run self env.
Proof. destruct self; simpl; try discriminate; reflexivity. Qed.

Lemma step_run_unfold
    (_run' : PreparedProcedureStep -> Env -> res Result * PreparedProcedureStep * Env)
    (self : PreparedProcedureStep) (env : Env) :
  PreparedProcedureStep_run _run' self env =
  let outcome := fst (fst (_run' self env)) in
  let self1 := snd (fst (_run' self env)) in
  let self2 := with_common self1 (set_step_result (common self1) (stashed outcome)) in
  (Ok (fst (result self2)), snd (result self2), snd (_run' self env)).
Proof.
  unfold PreparedProcedureStep_run.
  destruct (_run' self env) as [[outcome self1] env1]. simpl.
  fold (stashed outcome).
  destruct (result _); reflexivity.
Qed.

Lemma run_steps_total (steps : list PreparedProcedureStep) :
  list_all
    (fun s => forall env, exists r s' env', run s env = (Ok r, s', env')) steps ->
  forall env, exists rs steps' env',
    run_steps run steps env = (Ok rs, steps', env') /\ length steps' = length steps.
Proof.
  intros Hall. induction Hall as [|s Hs rest Hrest IH]; intros env; simpl.
  - exists [], [], env. split; reflexivity.
  - destruct (Hs env) as (r & s' & env1 & Hrun). rewrite Hrun.
    destruct (IH env1) as (rs & rest' & env2 & Hrest' & Hlen). rewrite Hrest'. simpl.
    exists (r :: rs), (s' :: rest'), env2. split; [reflexivity|]. simpl. now rewrite Hlen.
Qed.

Lemma run_total (self : PreparedProcedureStep) :
  forall env, exists r self' env', run self env = (Ok r, self', env').
Proof.
  induction self as [c steps IH fs|c|c pf|c a af k kf|c p pf k kf]; intros env;
    try (rewrite run_not_group by reflexivity; rewrite step_run_unfold; cbv zeta;
         eexists _, _, _; reflexivity).
  simpl.
  destruct (run_steps_total IH env) as (rs & steps' & env' & Hsteps & _).
  rewrite Hsteps.
  destruct (let '(results, steps0) := pull_results result steps' in _) as [r self'] eqn:Hres.
  exists r, self', env'. reflexivity.
Qed.

Lemma run_group (c : PreparedFields) (steps : list PreparedProcedureStep)
    (prepare_failures : list FailedStep) (env : Env) :
  exists rs steps' env',
    run_steps run steps env = (Ok rs, steps', env') /\
    length steps' = length steps /\
    run (PreparedProcedureGroup c steps prepare_failures) env =
    (Ok (fst (result (PreparedProcedureGroup
                        (set_step_result c (group_step_result prepare_failures rs))
                        steps' prepare_failures))),
     snd (result (PreparedProcedureGroup
                    (set_step_result c (group_step_result prepare_failures rs))
                    steps' prepare_failures)),
     env').
Proof.
  assert (Hall : list_all
            (fun s => forall env, exists r s' env', run s env = (Ok r, s', env')) steps).
  { induction steps as [|s rest IH]; constructor; [apply run_total|exact IH]. }
  destruct (run_steps_total Hall env) as (rs & steps' & env' & Hsteps & Hlen).
  exists rs, steps', env'. split; [exact Hsteps|]. split; [exact Hlen|].
  change (run (PreparedProcedureGroup c steps prepare_failures) env)
    with (let '(outcomes, steps0, env0) := run_steps run steps env in
          match outcomes with
          | Raise ex => (Raise ex, PreparedProcedureGroup c steps0 prepare_failures, env0)
          | Ok results =>
              let c0 := set_step_result c (group_step_result prepare_failures results) in
              let '(r, self0) := result (PreparedProcedureGroup c0 steps0 prepare_failures) in
              (Ok r, self0, env0)
          end).
  rewrite Hsteps. cbv zeta.
  destruct (result _); reflexivity.
Qed.

(** C3: [run] never raises.  For every prepared step it returns a result,
    which is the combined result it has just stored.  For every step other
    than a group, whose [run] is its own, the outcome of [_run] (an exception
    turned into an [internal_error] result with the exception's message) is
    what [step_result] holds afterwards, and the returned result is the
    [result] property read after that, whose severity folds the verification
    result in as the originating step's flags say. *)
Theorem run_never_raises (self : PreparedProcedureStep) (env : Env) :
  exists r self' env',
    run self env = (Ok r, self', env') /\
    combined_result (common self') = r /\
    (is_group self = false ->
     let outcome := fst (fst (_run self env)) in
     let self1 := snd (fst (_run self env)) in
     env' = snd (_run self env) /\
     step_result (common self') = stashed outcome /\
     (forall ex, outcome = Raise ex ->
        step_result (common self') = mkResult internal_error (ReasonStr (str_exn ex))) /\
     (r, self') = result (with_common self1 (set_step_result (common self1) (stashed outcome))) /\
     severity r =
       sev_max
         (if verify_required (fields (origin (common self)))
          then severity (verify_result (common self)) else success)
         (if step_success_required (fields (origin (common self)))
          then severity (stashed outcome) else success)).
Proof.
  destruct (run_total self env) as (r & self' & env' & Hrun).
  exists r, self', env'. split; [exact Hrun|].
  destruct (is_group self) eqn:Hg.
  - split; [|discriminate].
    destruct self; try discriminate.
    destruct (run_group c steps prepare_failures env) as (rs & steps' & env1 & _ & _ & Hgrp).
    rewrite Hgrp in Hrun.
    set (grp := PreparedProcedureGroup _ steps' prepare_failures) in Hrun.
    assert (Hr : r = fst (result grp)) by congruence.
    assert (Hs : self' = snd (result grp)) by congruence.
    rewrite Hr, Hs. apply result_stores.
  - rewrite run_not_group, step_run_unfold in Hrun by exact Hg. cbv zeta in Hrun.
    destruct (_run_shape self env) as (Hgrp & Horigin & Hverify).
    set (outcome := fst (fst (_run self env))) in *.
    set (self1 := snd (fst (_run self env))) in *.
    set (self2 := with_common self1 (set_step_result (common self1) (stashed outcome))) in *.
    assert (Hr : r = fst (result self2)) by congruence.
    assert (Hs : self' = snd (result self2)) by congruence.
    assert (He : env' = snd (_run self env)) by congruence.
    clear Hrun. subst r self' env'.
    split; [apply result_stores|]. intros _.
    assert (Hg2 : is_group self2 = false).
    { unfold self2. now rewrite with_common_is_group, Hgrp. }
    assert (Hstep : step_result (common (snd (result self2))) = stashed outcome).
    { rewrite (result_not_group self2 Hg2). simpl.
      rewrite with_common_common, step_result_fields. unfold self2.
      rewrite with_common_common. reflexivity. }
    split; [reflexivity|]. split; [exact Hstep|].
    split; [intros ex Hex; rewrite Hstep, Hex; reflexivity|].
    split; [exact (eq_sym (surjective_pairing (result self2)))|].
    rewrite (result_not_group self2 Hg2). simpl. rewrite step_result_severity.
    unfold self2. rewrite with_common_common. simpl.
    now rewrite Horigin, Hverify.
Qed.

End RunningFacts.

(** A prepared plan step, as [PreparedPlanStep.from_origin] would leave it. *)
Lemma run_never_raises_witness :
  let self := PreparedPlanStep (@new_prepared bench (Some "scan") scan_step)
                [@PreparedPlan_from_origin bench (mkPlanOptions "scan" "count" [] [])] [] [] [] in
  exists r self' env',
    @run bench self bench_env = (Ok r, self', env') /\
    step_result (common self') =
      mkResult internal_error
        (ReasonStr "'PreparedPlanStep' object has no attribute 'prep_plans'") /\
    r = mkResult internal_error
          (ReasonStr ("Not Verified (step incomplete), Not Successful (" +++
                      "'PreparedPlanStep' object has no attribute 'prep_plans')")).
Proof.
  intros self.
  destruct (@run_never_raises bench self bench_env) as (r & self' & env' & Hrun & _ & Hleaf).
  exists r, self', env'. split; [exact Hrun|].
  destruct (Hleaf eq_refl) as (_ & Hstep & _ & Hres & _).
  split; [exact Hstep|].
  vm_compute in Hres. injection Hres as -> _. reflexivity.
Defined.

(** ** Description steps *)

Section DescriptionFacts.
Context {E : External}.

(** C9, as the code has it: a description step's [_run] gives [Result()]
    and touches nothing, and [run] stores that success as the step result;
    the severity [run] returns is success when the originating step does not
    require verification, and the severity of the verification result when
    it does. *)
Theorem description_step_run (c : PreparedFields) (env : Env) :
  exists r c',
    run (PreparedDescriptionStep c) env = (Ok r, PreparedDescriptionStep c', env) /\
    _run (PreparedDescriptionStep c) env = (Ok Result_default, PreparedDescriptionStep c, env) /\
    step_result c' = Result_default /\
    verify_result c' = verify_result c /\
    severity r =
      (if verify_required (fields (origin c)) then severity (verify_result c) else success).
Proof.
  destruct (PreparedProcedureStep_result (set_step_result c Result_default)) as [r c'] eqn:Hres.
  exists r, c'. split.
  - simpl. unfold PreparedProcedureStep_run. simpl. rewrite Hres. reflexivity.
  - split; [reflexivity|].
    pose proof (step_result_fields (set_step_result c Result_default)) as Hf.
    pose proof (step_result_severity (set_step_result c Result_default)) as Hs.
    rewrite Hres in Hf, Hs. simpl in Hf, Hs. subst c'.
    split; [reflexivity|]. split; [reflexivity|].
    rewrite Hs.
    destruct (verify_required (fields (origin c))), (step_success_required (fields (origin c)));
      now rewrite ?sev_max_success_r.
Qed.

End DescriptionFacts.

(** A narrative step as preparation leaves it when verification is required:
    nobody has verified it yet, and on every backend its run reports the
    severity of [incomplete_result()]. *)
Lemma description_step_run_unverified (E : External) (env : Env) :
  exists st r st',
    PreparedProcedureStep_from_origin (note "read me" true true) = Prepared st /\
    verify_required (fields (origin (common st))) = true /\
    run st env = (Ok r, st', env) /\
    severity r = severity incomplete_result.
Proof.
  eexists _, _, _. split; [reflexivity|]. split; [reflexivity|]. split; [reflexivity|].
  simpl. apply sev_max_success_r.
Qed.

(** C9 as stated fails: a description step whose originating step requires
    verification, and which the user refused to verify, runs to [error] on
    every backend. *)
Lemma description_step_run_counterexample :
  exists c : PreparedFields,
    c = mkPreparedFields (Some "read me") (note "read me" true false)
          incomplete (mkResult error (ReasonStr "refused")) incomplete /\
    forall (E : External) (env : Env),
      exists c',
        run (PreparedDescriptionStep c) env =
          (Ok (mkResult error (ReasonStr "Not Verified (refused)")),
           PreparedDescriptionStep c', env) /\
        severity (mkResult error (ReasonStr "Not Verified (refused)")) <> success.
Proof.
  eexists. split; [reflexivity|]. intros E env.
  eexists. split; [reflexivity|]. discriminate.
Qed.

(** C9 as amended, at a step that requires no verification and at one the
    user refused. *)
Lemma description_step_run_witness :
  (exists r c',
     @run bench (PreparedDescriptionStep
                   (@new_prepared bench (Some "intro") (note "intro" false true))) bench_env =
       (Ok r, PreparedDescriptionStep c', bench_env) /\
     severity r = success) /\
  (exists r c',
     @run bench (PreparedDescriptionStep
                   (mkPreparedFields (Some "read me") (note "read me" true false)
                      incomplete (mkResult error (ReasonStr "refused")) incomplete)) bench_env =
       (Ok r, PreparedDescriptionStep c', bench_env) /\
     severity r = error).
Proof.
  split.
  - destruct (@description_step_run bench
                (@new_prepared bench (Some "intro") (note "intro" false true)) bench_env)
      as (r & c' & Hrun & _ & _ & _ & Hsev).
    exists r, c'. split; [exact Hrun|exact Hsev].
  - destruct (@description_step_run bench
                (mkPreparedFields (Some "read me") (note "read me" true false)
                   incomplete (mkResult error (ReasonStr "refused")) incomplete) bench_env)
      as (r & c' & Hrun & _ & _ & _ & Hsev).
    exists r, c'. split; [exact Hrun|exact Hsev].
Defined.

(** ** Groups *)

Section GroupFacts.
Context {E : External}.

Lemma group_step_result_failures (failures : list FailedStep) (results : list Result) :
  failures <> [] -> group_step_result failures results = failed_to_initialize.
Proof. destruct failures; [congruence|reflexivity]. Qed.

Lemma group_result_with_failures (c : PreparedFields) (steps : list PreparedProcedureStep)
    (failures : list FailedStep) :
  failures <> [] ->
  severity (fst (result (PreparedProcedureGroup c steps failures))) = reported_with_failures c /\
  step_result (common (snd (result (PreparedProcedureGroup c steps failures)))) =
    failed_to_initialize /\
  group_prepare_failures (snd (result (PreparedProcedureGroup c steps failures))) = failures /\
  length (group_steps (snd (result (PreparedProcedureGroup c steps failures)))) = length steps.
Proof.
  intros Hne. rewrite result_group. cbv zeta. simpl.
  rewrite (group_step_result_failures _ Hne), pull_results_map. simpl.
  rewrite step_result_severity, step_result_fields, length_map.
  repeat split.
Qed.

Lemma reported_at_least_error (c : PreparedFields) :
  step_success_required (fields (origin c)) = true -> sev_le error (reported_with_failures c).
Proof.
  intros Hs. unfold reported_with_failures. rewrite Hs. apply sev_max_ub_r.
Qed.

Lemma reported_exactly_error (c : PreparedFields) :
  step_success_required (fields (origin c)) = true ->
  verify_required (fields (origin c)) = false \/ sev_le (severity (verify_result c)) error ->
  reported_with_failures c = error.
Proof.
  intros Hs Hv. unfold reported_with_failures. rewrite Hs.
  destruct (verify_required (fields (origin c))); [|reflexivity].
  destruct Hv as [Hv|Hv]; [discriminate|].
  destruct (severity (verify_result c)); try reflexivity.
  unfold sev_le in Hv; simpl in Hv; lia.
Qed.

(** C4, as the code has it.  Preparing a group prepares every child: the
    children that fail go to [prepare_failures] and all others to [steps],
    each list in the order of the children.  Whenever [prepare_failures] is
    not empty, [run] and [result] set the group's [step_result] to [error]
    whatever the prepared children did, and the severity they report is the
    combination of that [error] with the group's verification result as the
    originating group's flags say: at least [error] when step success is
    required of the group, exactly [error] when in addition verification is
    not required or its result is no worse than [error], and success when
    neither is required. *)
Theorem group_preparation_fails_closed :
  (forall (f : StepFields) (children : list ProcedureStep),
     let prepared := map PreparedProcedureStep_from_origin children in
     let self := PreparedProcedureGroup_from_origin f children in
     from_origin_body (ProcedureGroup f children) = Ok self /\
     group_steps self = prepared_of prepared /\
     group_prepare_failures self = failed_of prepared /\
     length (group_steps self) + length (group_prepare_failures self) = length children) /\
  (forall (c : PreparedFields) (steps : list PreparedProcedureStep)
          (failures : list FailedStep) (env : Env),
     failures <> [] ->
     exists r self' env',
       run (PreparedProcedureGroup c steps failures) env = (Ok r, self', env') /\
       step_result (common self') = failed_to_initialize /\
       group_prepare_failures self' = failures /\
       length (group_steps self') = length steps /\
       severity r = reported_with_failures c /\
       severity (fst (result (PreparedProcedureGroup c steps failures))) =
         reported_with_failures c /\
       step_result (common (snd (result (PreparedProcedureGroup c steps failures)))) =
         failed_to_initialize /\
       (step_success_required (fields (origin c)) = true -> sev_le error (severity r)) /\
       (step_success_required (fields (origin c)) = true ->
        verify_required (fields (origin c)) = false \/
          sev_le (severity (verify_result c)) error ->
        severity r = error) /\
       (step_success_required (fields (origin c)) = false ->
        verify_required (fields (origin c)) = false ->
        severity r = success)).
Proof.
  split.
  - intros f children. cbv zeta.
    rewrite group_body, group_from_origin_partition. simpl.
    repeat split. rewrite prepared_failed_length. apply length_map.
  - intros c steps failures env Hne.
    destruct (run_group c steps failures env) as (rs & steps' & env' & _ & Hlen & Hrun).
    rewrite (group_step_result_failures _ Hne) in Hrun.
    set (c1 := set_step_result c failed_to_initialize) in Hrun.
    destruct (group_result_with_failures c1 steps' Hne) as (Hsev & Hstep & Hfail & Hsteps).
    destruct (group_result_with_failures c steps Hne) as (Hsev0 & Hstep0 & _ & _).
    assert (Hrep : reported_with_failures c1 = reported_with_failures c) by reflexivity.
    eexists _, _, _. split; [exact Hrun|].
    split; [exact Hstep|]. split; [exact Hfail|].
    split; [now rewrite Hsteps|].
    rewrite Hsev, Hrep.
    split; [reflexivity|]. split; [exact Hsev0|]. split; [exact Hstep0|].
    split; [apply reported_at_least_error|].
    split; [apply reported_exactly_error|].
    intros Hs Hv. unfold reported_with_failures. now rewrite Hs, Hv.
Qed.

End GroupFacts.

(** C4 as stated fails: a group of which neither verification nor step
    success is required, with one child that cannot be prepared and two that
    prepare and succeed, reports success on every backend, from [result] and
    from [run] alike. *)
Lemma group_failure_reports_success :
  exists g : ProcedureStep,
    g = lenient_group /\
    forall (E : External) (env : Env),
      exists c steps failures self',
        PreparedProcedureStep_from_origin g = Prepared (PreparedProcedureGroup c steps failures) /\
        length failures = 1 /\ length steps = 2 /\
        fst (result (PreparedProcedureGroup c steps failures)) = Result_default /\
        run (PreparedProcedureGroup c steps failures) env = (Ok Result_default, self', env) /\
        severity Result_default <> error.
Proof.
  eexists. split; [reflexivity|]. intros E env.
  eexists _, _, _, _. split; [reflexivity|].
  split; [reflexivity|]. split; [reflexivity|]. split; [reflexivity|].
  split; [reflexivity|]. discriminate.
Qed.

(** C4 as amended, at the group of one unpreparable and two narrative
    children of which step success is required. *)
Lemma group_preparation_fails_closed_witness :
  exists c steps failures,
    @from_origin_body bench strict_group = Ok (PreparedProcedureGroup c steps failures) /\
    length failures = 1 /\ length steps = 2 /\
    exists r self' env',
      @run bench (PreparedProcedureGroup c steps failures) bench_env = (Ok r, self', env') /\
      severity r = error /\
      step_result (common self') = failed_to_initialize.
Proof.
  eexists _, _, _. split; [reflexivity|]. split; [reflexivity|]. split; [reflexivity|].
  match goal with
  | |- exists r self' env', run (PreparedProcedureGroup ?c ?steps ?failures) _ = _ /\ _ =>
      destruct (proj2 (@group_preparation_fails_closed bench) c steps failures bench_env)
        as (r & self' & env' & Hrun & Hstep & _ & _ & _ & _ & _ & _ & Hexact & _);
      [discriminate|]
  end.
  exists r, self', env'. split; [exact Hrun|]. split; [|exact Hstep].
  apply Hexact; [reflexivity|left; reflexivity].
Defined.

(** ** Failed steps *)

Section FailedStepFacts.
Context {E : External}.

Lemma run_keeps_failures (self : PreparedProcedureStep) (env : Env) :
  group_prepare_failures (snd (fst (run self env))) = group_prepare_failures self.
Proof.
  destruct (is_group self) eqn:Hg.
  - destruct self as [c steps fs| | | |]; try discriminate.
    destruct (run_group c steps fs env) as (rs & steps' & env' & _ & _ & Hrun).
    rewrite Hrun. cbn [fst snd]. now rewrite result_keeps_failures.
  - rewrite run_not_group, step_run_unfold by exact Hg. cbv zeta. cbn [fst snd].
    rewrite result_keeps_failures.
    destruct (_run_shape self env) as (Hg' & _ & _). rewrite Hg in Hg'.
    destruct (snd (fst (_run self env))), self; try discriminate; reflexivity.
Qed.

(** C10: the result of a [FailedStep] is its stored [combined_result],
    whatever its verification and step results and whatever the flags of its
    originating step; a [FailedStep] made by [from_origin] reports
    [internal_error]; and neither reading the result of the enclosing group
    nor running it changes the group's failed steps, so what they report
    stays what it was at creation. *)
Theorem failed_step_result_is_fixed :
  (forall (o : ProcedureStep) (r v s : Result) (ex : option Exn),
     FailedStep_result (mkFailedStep o r v s ex) = r) /\
  (forall (step : ProcedureStep) (fs : FailedStep),
     PreparedProcedureStep_from_origin step = Failed fs ->
     severity (FailedStep_result fs) = internal_error) /\
  (forall self : PreparedProcedureStep,
     map FailedStep_result (group_prepare_failures (snd (result self))) =
     map FailedStep_result (group_prepare_failures self)) /\
  (forall (self : PreparedProcedureStep) (env : Env),
     map FailedStep_result (group_prepare_failures (snd (fst (run self env)))) =
     map FailedStep_result (group_prepare_failures self)).
Proof.
  split; [reflexivity|]. split.
  - intros step fs Hfs.
    apply from_origin_failed_inv in Hfs as (ex & _ & ->). reflexivity.
  - split.
    + intros self. now rewrite result_keeps_failures.
    + intros self env. now rewrite run_keeps_failures.
Qed.

End FailedStepFacts.

(** C10, at the plan step, which [from_origin] cannot prepare. *)
Lemma failed_step_result_is_fixed_witness :
  exists fs : FailedStep,
    @PreparedProcedureStep_from_origin bench scan_step = Failed fs /\
    severity (FailedStep_result fs) = internal_error.
Proof.
  eexists. split; [reflexivity|].
  apply (proj1 (proj2 (@failed_step_result_is_fixed bench)) scan_step). reflexivity.
Defined.

(** The strict group before and after its run: the failed child is the same
    and reports the same. *)
Example strict_group_failure_survives_run :
  exists c steps fs self' env',
    @from_origin_body bench strict_group = Ok (PreparedProcedureGroup c steps [fs]) /\
    @run bench (PreparedProcedureGroup c steps [fs]) bench_env =
      (Ok failed_to_initialize_combined, self', env') /\
    group_prepare_failures self' = [fs] /\
    severity (FailedStep_result fs) = internal_error.
Proof.
  eexists _, _, _, _, _. split; [reflexivity|]. split; [reflexivity|].
  split; reflexivity.
Qed.

(** ** What reading a result changes *)

Lemma set_combined_twice (c : PreparedFields) (r r' : Result) :
  set_combined_result (set_combined_result c r) r' = set_combined_result c r'.
Proof. reflexivity. Qed.

Lemma result_leaf_idempotent (self : PreparedProcedureStep) :
  is_group self = false ->
  result (snd (result self)) = (fst (result self), snd (result self)).
Proof.
  intros Hg. rewrite (result_not_group self Hg). cbn [fst snd].
  rewrite result_not_group by (now rewrite with_common_is_group).
  rewrite with_common_common, with_common_twice, !step_result_fields,
    step_result_ignores_combined, set_combined_twice.
  reflexivity.
Qed.

Lemma pull_results_idempotent (steps : list PreparedProcedureStep) :
  list_all (fun s => result (snd (result s)) = (fst (result s), snd (result s))) steps ->
  pull_results result (map (fun s => snd (result s)) steps) =
  (map (fun s => fst (result s)) steps, map (fun s => snd (result s)) steps).
Proof.
  intros Hall. rewrite pull_results_map, !map_map.
  induction Hall as [|s Hs rest Hrest IH]; simpl; [reflexivity|].
  injection IH as IH1 IH2. rewrite IH1, IH2, Hs. reflexivity.
Qed.

Lemma result_idempotent (self : PreparedProcedureStep) :
  result (snd (result self)) = (fst (result self), snd (result self)).
Proof.
  induction self as [c steps IH fs|c|c pf|c a af k kf|c p pf k kf];
    try (apply result_leaf_idempotent; reflexivity).
  rewrite (result_group c steps fs). cbv zeta. cbn [fst snd].
  rewrite pull_results_map. cbn [fst snd].
  rewrite result_group. cbv zeta.
  rewrite (pull_results_idempotent IH). cbn [fst snd].
  set (c1 := set_step_result c (group_step_result fs (map (fun s => fst (result s)) steps))).
  rewrite (step_result_fields c1).
  assert (Hc : set_step_result
                 (set_combined_result c1 (fst (PreparedProcedureStep_result c1)))
                 (group_step_result fs (map (fun s => fst (result s)) steps)) =
               set_combined_result c1 (fst (PreparedProcedureStep_result c1))) by reflexivity.
  rewrite Hc, step_result_fields, step_result_ignores_combined, set_combined_twice.
  reflexivity.
Qed.

(** C7, as the code has it.  Reading [result] stores the result it returns
    in [combined_result]; for a group it also overwrites [step_result] with
    the group result recomputed from the children's results, and reads,
    hence updates in the same way, every child in turn.  It leaves the name,
    the originating step, the verification result, the preparation failures
    and the number of children as they were, and for a step other than a
    group it changes nothing but [combined_result].  Reading it a second
    time gives the same result and changes nothing more. *)
Theorem result_updates_only_derived_fields (self : PreparedProcedureStep) :
  combined_result (common (snd (result self))) = fst (result self) /\
  prepared_name (common (snd (result self))) = prepared_name (common self) /\
  origin (common (snd (result self))) = origin (common self) /\
  verify_result (common (snd (result self))) = verify_result (common self) /\
  is_group (snd (result self)) = is_group self /\
  group_prepare_failures (snd (result self)) = group_prepare_failures self /\
  length (group_steps (snd (result self))) = length (group_steps self) /\
  (is_group self = false ->
   snd (result self) = with_common self (set_combined_result (common self) (fst (result self)))) /\
  (forall (c : PreparedFields) (steps : list PreparedProcedureStep)
          (prepare_failures : list FailedStep),
     self = PreparedProcedureGroup c steps prepare_failures ->
     snd (result self) =
       PreparedProcedureGroup
         (set_combined_result
            (set_step_result c
               (group_step_result prepare_failures (map (fun s => fst (result s)) steps)))
            (fst (result self)))
         (map (fun s => snd (result s)) steps) prepare_failures /\
     step_result (common (snd (result self))) =
       group_step_result prepare_failures (map (fun s => fst (result s)) steps) /\
     group_steps (snd (result self)) = map (fun s => snd (result s)) steps /\
     map (fun s => combined_result (common s)) (group_steps (snd (result self))) =
       map (fun s => fst (result s)) steps /\
     fst (result self) =
       fst (PreparedProcedureStep_result
              (set_step_result c
                 (group_step_result prepare_failures (map (fun s => fst (result s)) steps))))) /\
  result (snd (result self)) = (fst (result self), snd (result self)).
Proof.
  split; [apply result_stores|].
  assert (Hkept : prepared_name (common (snd (result self))) = prepared_name (common self) /\
                  origin (common (snd (result self))) = origin (common self) /\
                  verify_result (common (snd (result self))) = verify_result (common self)).
  { destruct (result_common self) as (sr & _ & Hc & _).
    rewrite Hc, step_result_fields. repeat split. }
  destruct Hkept as (Hname & Horigin & Hverify).
  split; [exact Hname|]. split; [exact Horigin|]. split; [exact Hverify|].
  split; [apply result_is_group|].
  split; [apply result_keeps_failures|].
  split.
  - destruct self; try (rewrite result_not_group by reflexivity; reflexivity).
    rewrite result_group. cbv zeta. cbn [snd group_steps].
    rewrite pull_results_map. cbn [snd]. apply length_map.
  - split; [|split; [|apply result_idempotent]].
    + intros Hg. rewrite (result_not_group self Hg). cbn [fst snd].
      now rewrite step_result_fields.
    + intros c steps fs ->. rewrite result_group. cbv zeta.
      rewrite pull_results_map. cbn [fst snd common group_steps].
      rewrite step_result_fields.
      split; [reflexivity|]. split; [reflexivity|]. split; [reflexivity|].
      split; [|reflexivity].
      rewrite map_map. apply map_ext. intros s. apply result_stores.
Qed.

(** C7 as stated fails.  A narrative step that requires verification was
    refused by the user, then run, then approved: on every backend the run
    leaves [combined_result] at the refusal, and reading [result] after the
    approval replaces it.  In a group that was run around the refused step,
    reading [result] after the approval replaces the group's [step_result]
    and the child's [combined_result] as well. *)
Lemma result_is_not_read_only :
  (forall (E : External) (env : Env) (x y : Result),
     snd (fst (run (PreparedDescriptionStep
                      (mkPreparedFields (Some "read me") (note "read me" true true)
                         x (mkResult error (ReasonStr "refused")) y)) env)) =
     reviewed_note (mkResult error (ReasonStr "refused"))) /\
  combined_result (common (reviewed_note (mkResult success (ReasonStr "ok")))) =
    mkResult error (ReasonStr "Not Verified (refused)") /\
  fst (result (reviewed_note (mkResult success (ReasonStr "ok")))) =
    mkResult success (ReasonStr "Verified (ok)") /\
  combined_result (common (snd (result (reviewed_note (mkResult success (ReasonStr "ok")))))) =
    mkResult success (ReasonStr "Verified (ok)") /\
  snd (result (reviewed_note (mkResult success (ReasonStr "ok")))) <>
    reviewed_note (mkResult success (ReasonStr "ok")) /\
  (forall (E : External) (env : Env) (v x y cx cy : Result),
     snd (fst (run (PreparedProcedureGroup
                      (mkPreparedFields None reviewed_group_origin x v y)
                      [PreparedDescriptionStep
                         (mkPreparedFields (Some "read me") (note "read me" true true)
                            cx (mkResult error (ReasonStr "refused")) cy)] []) env)) =
     reviewed_group v (mkResult error (ReasonStr "refused"))) /\
  (forall v : Result,
     step_result (common (reviewed_group v (mkResult success (ReasonStr "ok")))) =
       mkResult error ReasonNone /\
     step_result (common (snd (result (reviewed_group v (mkResult success (ReasonStr "ok")))))) =
       mkResult success ReasonNone /\
     group_steps (snd (result (reviewed_group v (mkResult success (ReasonStr "ok"))))) =
       [snd (result (reviewed_note (mkResult success (ReasonStr "ok"))))] /\
     group_steps (snd (result (reviewed_group v (mkResult success (ReasonStr "ok"))))) <>
       group_steps (reviewed_group v (mkResult success (ReasonStr "ok"))) /\
     snd (result (reviewed_group v (mkResult success (ReasonStr "ok")))) <>
       reviewed_group v (mkResult success (ReasonStr "ok"))).
Proof.
  split; [reflexivity|]. split; [reflexivity|]. split; [reflexivity|].
  split; [reflexivity|]. split; [discriminate|]. split; [reflexivity|].
  intros v. split; [reflexivity|]. split; [reflexivity|]. split; [reflexivity|].
  split; discriminate.
Qed.

(** C7 as amended, at the passive step of which nothing is required (only
    its [combined_result] changes, and a second reading changes nothing) and
    at the group around the approved step (its [step_result] is overwritten
    and its child updated). *)
Lemma result_updates_only_derived_fields_witness :
  (snd (result unchecked_passive) =
     with_common unchecked_passive
       (set_combined_result (common unchecked_passive) Result_default) /\
   result (snd (result unchecked_passive)) = (Result_default, snd (result unchecked_passive))) /\
  (step_result
     (common (snd (result (reviewed_group incomplete (mkResult success (ReasonStr "ok")))))) =
     mkResult success ReasonNone /\
   group_steps (snd (result (reviewed_group incomplete (mkResult success (ReasonStr "ok"))))) =
     [snd (result (reviewed_note (mkResult success (ReasonStr "ok"))))]).
Proof.
  split.
  - destruct (result_updates_only_derived_fields unchecked_passive)
      as (_ & _ & _ & _ & _ & _ & _ & Hleaf & _ & Hidem).
    split; [exact (Hleaf eq_refl)|exact Hidem].
  - destruct (result_updates_only_derived_fields
                (reviewed_group incomplete (mkResult success (ReasonStr "ok"))))
      as (_ & _ & _ & _ & _ & _ & _ & _ & Hgroup & _).
    destruct (Hgroup _ _ _ eq_refl) as (_ & Hstep & Hsteps & _).
    split; [rewrite Hstep; reflexivity|rewrite Hsteps; reflexivity].
Defined.

(** ** Set-value steps that halt on failure *)

Section SetValueFacts.
Context {E : External}.

Lemma action_run_result (a : PreparedValueToSignal) (env : Env) :
  exists a' env',
    PreparedValueToSignal_run a env = (pvts_result a', a', env') /\
    pvts_name a' = pvts_name a /\
    trace env' = trace env ++ [set_event a].
Proof.
  unfold PreparedValueToSignal_run.
  destruct (signal_set _ _ _ _ _) as [raised w].
  exists (mkPreparedValueToSignal (pvts_name a) (pvts_signal a) (pvts_value a) (pvts_origin a)
            (match raised with
             | Some ex => mkResult error (ReasonExc ex)
             | None => Result_default
             end)).
  eexists. split; [reflexivity|]. split; reflexivity.
Qed.

Lemma run_each_cons (a : PreparedValueToSignal) (rest : list PreparedValueToSignal) (env : Env) :
  run_each (a :: rest) env =
  (snd (fst (PreparedValueToSignal_run a env)) ::
     fst (run_each rest (snd (PreparedValueToSignal_run a env))),
   snd (run_each rest (snd (PreparedValueToSignal_run a env)))).
Proof.
  simpl. destruct (PreparedValueToSignal_run a env) as [[r a'] env1]. simpl.
  destruct (run_each rest env1); reflexivity.
Qed.

Lemma run_each_trace (actions : list PreparedValueToSignal) (env : Env) :
  trace (snd (run_each actions env)) = trace env ++ map set_event actions.
Proof.
  revert env. induction actions as [|a rest IH]; intros env.
  - simpl. now rewrite app_nil_r.
  - rewrite run_each_cons. cbn [snd]. rewrite IH.
    destruct (action_run_result a env) as (a' & env' & Hrun & _ & Htrace).
    rewrite Hrun. cbn [snd]. rewrite Htrace, <- app_assoc. reflexivity.
Qed.

(** The first loop up to the first action that fails: the actions before it
    have run, it has run, and the actions after it are as they were. *)
Lemma run_actions_halts (org : ProcedureStep) (pre post : list PreparedValueToSignal)
    (a : PreparedValueToSignal) (env : Env) :
  halt_on_fail_attr org = Ok true ->
  Forall (fun p => action_failed p = false) (fst (run_each pre env)) ->
  action_failed (snd (fst (PreparedValueToSignal_run a (snd (run_each pre env))))) = true ->
  run_actions org (pre ++ a :: post) env =
  (Ok (Some (snd (fst (PreparedValueToSignal_run a (snd (run_each pre env)))))),
   fst (run_each pre env) ++
     snd (fst (PreparedValueToSignal_run a (snd (run_each pre env)))) :: post,
   snd (PreparedValueToSignal_run a (snd (run_each pre env)))).
Proof.
  intros Hhalt. revert env.
  induction pre as [|p pre IH]; intros env Hpre Ha.
  - simpl in *. destruct (action_run_result a env) as (a' & env' & Hrun & _ & _).
    rewrite Hrun in *. cbn [fst snd] in *. rewrite Hhalt.
    unfold action_failed in Ha. rewrite Ha. reflexivity.
  - rewrite run_each_cons in Hpre, Ha. cbn [fst snd] in Hpre, Ha.
    rewrite run_each_cons. cbn [fst snd].
    change ((p :: pre) ++ a :: post) with (p :: (pre ++ a :: post)).
    cbn [run_actions].
    destruct (action_run_result p env) as (p' & env1 & Hrun & _ & _).
    rewrite Hrun in *. cbn [fst snd] in *. rewrite Hhalt.
    apply Forall_cons_iff in Hpre as [Hp Hpre].
    unfold action_failed in Hp. rewrite Hp. cbn [andb].
    rewrite (IH env1 Hpre Ha). reflexivity.
Qed.

(** If some action fails when the actions run in turn, one of them is the
    first to fail. *)
Lemma first_failed_action (actions : list PreparedValueToSignal) (env : Env) :
  Exists (fun p => action_failed p = true) (fst (run_each actions env)) ->
  exists pre a post,
    actions = pre ++ a :: post /\
    Forall (fun p => action_failed p = false) (fst (run_each pre env)) /\
    action_failed (snd (fst (PreparedValueToSignal_run a (snd (run_each pre env))))) = true.
Proof.
  revert env. induction actions as [|a rest IH]; intros env Hex.
  - simpl in Hex. inversion Hex.
  - rewrite run_each_cons in Hex. cbn [fst] in Hex.
    destruct (action_failed (snd (fst (PreparedValueToSignal_run a env)))) eqn:Hfail.
    + exists [], a, rest. simpl. split; [reflexivity|]. split; [constructor|exact Hfail].
    + apply Exists_cons in Hex as [Hex|Hex]; [congruence|].
      destruct (IH _ Hex) as (pre & b & post & -> & Hpre & Hb).
      exists (a :: pre), b, post. split; [reflexivity|].
      rewrite run_each_cons. cbn [fst snd]. split; [|exact Hb].
      constructor; [exact Hfail|exact Hpre].
Qed.

Lemma no_comparison_among_writes (actions : list PreparedValueToSignal) :
  filter is_compared (map set_event actions) = [].
Proof. induction actions as [|a rest IH]; simpl; [reflexivity|exact IH]. Qed.

(** C5: in a prepared set-value step whose originating step has
    [halt_on_fail] set, if some action's run gives a severity above success
    then [_run] returns at the first such action with an [error] result
    naming it: the actions before it and that action are the only ones
    written (the later ones are left as they were), no comparison is made
    (the criteria are left as they were and the trace gains no comparison),
    and [run] as a whole makes no further call either. *)
Theorem halt_on_fail_stops_at_first_failure
    (c : PreparedFields) (actions : list PreparedValueToSignal) (af : list ValueToTarget)
    (criteria : list PreparedSignalComparison) (cf : list PreparedComparisonException)
    (env : Env) (f : StepFields) (acts0 : list ValueToTarget)
    (crit0 : list ComparisonToTarget) (req : bool) :
  origin c = SetValueStep f acts0 crit0 true req ->
  Exists (fun p => action_failed p = true) (fst (run_each actions env)) ->
  exists pre a post r a' env',
    actions = pre ++ a :: post /\
    Forall (fun p => action_failed p = false) (fst (run_each pre env)) /\
    PreparedValueToSignal_run a (snd (run_each pre env)) = (pvts_result a', a', env') /\
    sev_gtb (severity (pvts_result a')) success = true /\
    _run (PreparedSetValueStep c actions af criteria cf) env =
      (Ok r,
       PreparedSetValueStep (set_step_result c r) (fst (run_each pre env) ++ a' :: post) af
         criteria cf,
       env') /\
    r = mkResult error
          (ReasonStr ("action failed (" +++ str_option (pvts_name a) +++ "), step halted")) /\
    severity r = error /\
    trace env' = trace env ++ map set_event (pre ++ [a]) /\
    filter is_compared (trace env') = filter is_compared (trace env) /\
    snd (run (PreparedSetValueStep c actions af criteria cf) env) = env'.
Proof.
  intros Horigin Hex.
  destruct (first_failed_action actions env Hex) as (pre & a & post & -> & Hpre & Ha).
  assert (Hhalt : halt_on_fail_attr (origin c) = Ok true) by (rewrite Horigin; reflexivity).
  pose proof (@run_actions_halts (origin c) pre post a env Hhalt Hpre Ha) as Hloop.
  destruct (action_run_result a (snd (run_each pre env))) as (a' & env' & Hrun & Hname & Htrace).
  rewrite Hrun in Ha, Hloop. cbn [fst snd] in Ha, Hloop.
  assert (H_run : _run (PreparedSetValueStep c (pre ++ a :: post) af criteria cf) env =
            (Ok (mkResult error
                   (ReasonStr ("action failed (" +++ str_option (pvts_name a) +++
                               "), step halted"))),
             PreparedSetValueStep
               (set_step_result c
                  (mkResult error
                     (ReasonStr ("action failed (" +++ str_option (pvts_name a) +++
                                 "), step halted"))))
               (fst (run_each pre env) ++ a' :: post) af criteria cf,
             env')).
  { cbn [_run]. unfold PreparedSetValueStep__run. rewrite Hloop, Hname. reflexivity. }
  assert (Htr : trace env' = trace env ++ map set_event (pre ++ [a])).
  { rewrite Htrace, run_each_trace, map_app, <- app_assoc. reflexivity. }
  exists pre, a, post, (mkResult error
    (ReasonStr ("action failed (" +++ str_option (pvts_name a) +++ "), step halted"))), a', env'.
  split; [reflexivity|]. split; [exact Hpre|]. split; [exact Hrun|].
  split; [exact Ha|]. split; [exact H_run|]. split; [reflexivity|].
  split; [reflexivity|]. split; [exact Htr|]. split.
  - rewrite Htr, filter_app, no_comparison_among_writes, app_nil_r. reflexivity.
  - rewrite run_not_group, step_run_unfold by reflexivity. cbv zeta. cbn [snd].
    rewrite H_run. reflexivity.
Qed.

End SetValueFacts.

(** C5, on the bench: the second of three writes fails; the third write and
    the check are not made. *)
Lemma halt_on_fail_stops_at_first_failure_witness :
  exists self' env',
    @_run bench halting_step bench_env =
      (Ok (mkResult error (ReasonStr "action failed (X:FAIL), step halted")), self', env') /\
    trace env' = [set_event (write_to "X:SET" 5); set_event (write_to "X:FAIL" 1)] /\
    world env' = 2.
Proof.
  destruct (@halt_on_fail_stops_at_first_failure bench
              (mkPreparedFields (Some "set X")
                 (SetValueStep (mkStepFields (Some "set X") None false true) [] [] true true)
                 incomplete incomplete incomplete)
              [write_to "X:SET" 5; write_to "X:FAIL" 1; write_to "Y:SET" 2] []
              [read_back "X:RBV"] [] bench_env
              (mkStepFields (Some "set X") None false true) [] [] true eq_refl)
    as (pre & a & post & r & a' & env' & Hacts & Hpre & Hrun & Hfail & H_run & Hr & _ & Htr & _).
  - vm_compute. right. left. reflexivity.
  - destruct pre as [|p0 [|p1 pre]]; simpl in Hacts.
    + injection Hacts as <- <-.
      apply (f_equal (fun t => snd (fst t))) in Hrun. cbn [fst snd] in Hrun.
      rewrite <- Hrun in Hfail. vm_compute in Hfail. discriminate Hfail.
    + injection Hacts as <- <- <-.
      eexists _, env'. split; [rewrite Hr in H_run; exact H_run|].
      split; [exact Htr|].
      apply (f_equal snd) in Hrun. cbn [snd] in Hrun. rewrite <- Hrun. reflexivity.
    + injection Hacts as <- <- Hacts.
      rewrite !run_each_cons in Hpre. cbn [fst] in Hpre.
      apply Forall_cons_iff in Hpre as [_ Hpre].
      apply Forall_cons_iff in Hpre as [Hp _].
      vm_compute in Hp. discriminate Hp.
Defined.

(** ** Plans *)

Section PlanFacts.
Context {E : External}.

(** C8 does not hold of the code: [PreparedPlan.run] stores the [error]
    result for a destination other than the local engine but goes on; at
    every destination the plan is handed to the local engine, the world and
    the trace end up as for the local destination, and whenever the call
    returns the result is [Result()], severity success, which is also what
    the plan keeps. *)
Theorem plan_run_ignores_destination (self : PreparedPlan) (destination : PlanDestination)
    (env : Env) :
  snd (PreparedPlan_run self destination env) = snd (PreparedPlan_run self local_ env) /\
  trace (snd (PreparedPlan_run self destination env)) =
    trace env ++ [LocalRunEngine (pp_item self)] /\
  fst (fst (PreparedPlan_run self destination env)) =
    fst (fst (PreparedPlan_run self local_ env)) /\
  (forall r, fst (fst (PreparedPlan_run self destination env)) = Ok r ->
     r = Result_default /\
     severity r = success /\
     pp_result (snd (fst (PreparedPlan_run self destination env))) = Result_default).
Proof.
  unfold PreparedPlan_run.
  destruct destination as [|label]; cbn [PlanDestination_eqb negb set_plan_result pp_item];
    destruct (run_in_local_RE (pp_item self) (world env)) as [[uuid|ex] w]; cbn [fst snd];
    (split; [reflexivity|]); (split; [reflexivity|]); (split; [reflexivity|]);
    intros r Hr; try discriminate Hr;
    injection Hr as <-; repeat split.
Qed.

End PlanFacts.

(** C8, on the bench: a plan sent to a queue server is run by the local
    engine and reports success. *)
Example plan_run_at_queueserver :
  exists self',
    @PreparedPlan_run bench count_plan (other_destination "queueserver") bench_env =
      (Ok Result_default, self',
       @mkEnv bench 1 [LocalRunEngine (pp_item count_plan)]) /\
    pp_result self' = Result_default /\
    pp_uuid self' = Some "b1946ac9".
Proof. eexists. split; [reflexivity|]. split; reflexivity. Qed.

(** ** Walking a procedure *)

Lemma group_walk_is_flat_map (step : ProcedureStep) :
  ProcedureGroup_walk_steps step =
  match step with
  | ProcedureGroup _ steps => flat_map walk_steps steps
  | _ => []
  end.
Proof.
  induction step as [f steps IH|f|f path|f a k h r|f p k d h r]; try reflexivity.
  cbn [ProcedureGroup_walk_steps].
  induction IH as [|s Hs rest Hrest IHrest]; [reflexivity|].
  cbn [flat_map]. rewrite IHrest. f_equal.
  destruct s; try reflexivity.
  rewrite Hs. reflexivity.
Qed.

Lemma walk_steps_head (step : ProcedureStep) :
  exists rest, walk_steps step = step :: rest.
Proof. destruct step; eexists; reflexivity. Qed.

(** X1: the two walks over a procedure agree.  What [ProcedureFile.walk_steps]
    yields, through [ProcedureGroup.walk_steps], is what the module-level
    [walk_steps] yields from the file's root: the root first, then for each
    step of a group, in order, the whole walk of that step; and a step is in
    the walk of each group whose walk it belongs to. *)
Theorem walks_agree (file : ProcedureFile) :
  ProcedureFile_walk_steps file = walk_steps (root file) /\
  (forall (f : StepFields) (steps : list ProcedureStep),
     walk_steps (ProcedureGroup f steps) =
       ProcedureGroup f steps :: flat_map walk_steps steps /\
     ProcedureGroup_walk_steps (ProcedureGroup f steps) = flat_map walk_steps steps) /\
  (forall (f : StepFields) (steps : list ProcedureStep) (child step : ProcedureStep),
     In child steps -> In step (walk_steps child) ->
     In step (walk_steps (ProcedureGroup f steps))).
Proof.
  split.
  - unfold ProcedureFile_walk_steps. rewrite group_walk_is_flat_map. reflexivity.
  - split.
    + intros f steps. split; [reflexivity|apply group_walk_is_flat_map].
    + intros f steps child step Hchild Hstep. cbn [walk_steps]. right.
      apply in_flat_map. exists child. split; assumption.
Qed.

(** X1, at a file with a nested group. *)
Lemma walks_agree_witness :
  ProcedureFile_walk_steps
    (mkProcedureFile 0 (mkStepFields (Some "root") None true true)
       [note "a" true true; lenient_group; note "z" true true]) =
  [ProcedureGroup (mkStepFields (Some "root") None true true)
     [note "a" true true; lenient_group; note "z" true true];
   note "a" true true; lenient_group; scan_step; note "intro" false false;
   note "outro" false false; note "z" true true].
Proof.
  rewrite (proj1 (walks_agree _)). reflexivity.
Defined.

(** ** Resolving targets *)

Section TargetFacts.
Context {E : External}.

Lemma truthy_some (o : option string) :
  truthy o = true -> exists s, o = Some s /\ s <> "".
Proof.
  destruct o as [[|ch s]|]; simpl; try discriminate.
  intros _. eexists. split; [reflexivity|discriminate].
Qed.

(** X2: [to_signal] does not fall back.  Once the target names a device and
    an attribute (both non-empty), the PV is never consulted: the result is
    the same whatever the PV is, and it is [None] when the device lookup
    fails, even for a PV that would resolve.  The PV is looked up only when
    the device or the attribute is missing or empty, and then the device and
    attribute play no part. *)
Theorem to_signal_does_not_fall_back (t : Target) :
  (truthy (device t) && truthy (attr t) = true ->
   (forall p, to_signal (with_pv t p) = to_signal t) /\
   (forall d a ex, device t = Some d -> attr t = Some a ->
      get_happi_signal d a = Raise ex -> to_signal t = None) /\
   (forall d a s, device t = Some d -> attr t = Some a ->
      get_happi_signal d a = Ok s -> to_signal t = Some s)) /\
  (truthy (device t) && truthy (attr t) = false ->
   (forall d a, truthy d && truthy a = false ->
      to_signal (with_device_attr t d a) = to_signal t) /\
   (truthy (pv t) = false -> to_signal t = None) /\
   (forall p, pv t = Some p -> p <> "" ->
      to_signal t = match signal_cache_get p with Ok s => Some s | Raise _ => None end)).
Proof.
  split.
  - intros Hda. split; [|split].
    + intros p. unfold to_signal, with_pv. simpl. rewrite Hda. reflexivity.
    + intros d a ex Hd Ha Hex. unfold to_signal. rewrite Hda, Hd, Ha, Hex. reflexivity.
    + intros d a s Hd Ha Hs. unfold to_signal. rewrite Hda, Hd, Ha, Hs. reflexivity.
  - intros Hda. split; [|split].
    + intros d a Hda'. unfold to_signal, with_device_attr. simpl. rewrite Hda, Hda'.
      reflexivity.
    + intros Hpv. unfold to_signal. rewrite Hda, Hpv. reflexivity.
    + intros p Hp Hne. unfold to_signal. rewrite Hda, Hp.
      destruct p as [|ch p]; [congruence|]. simpl.
      destruct (signal_cache_get (String ch p)); reflexivity.
Qed.

End TargetFacts.

(** X2, on the bench, where no device is known: a target with a device, an
    attribute and a PV that would resolve gives no signal. *)
Lemma to_signal_does_not_fall_back_witness :
  @to_signal bench (mkTarget (Some "x") (Some "gun") (Some "voltage") (Some "X:SET")) = None /\
  @to_signal bench (mkTarget (Some "x") None None (Some "X:SET")) =
    Some (mkSignal "X:SET" (Some "X:SET")).
Proof.
  split.
  - apply (proj1 (proj2 (proj1 (@to_signal_does_not_fall_back bench
             (mkTarget (Some "x") (Some "gun") (Some "voltage") (Some "X:SET"))) eq_refl))
             "gun" "voltage" (mkExn "SearchError" false "No device found: gun"));
      reflexivity.
  - reflexivity.
Defined.

(** ** Preparing set-value and passive steps *)

Section LeafPreparationFacts.
Context {E : External}.

Lemma prepare_actions_acc (actions : list ValueToTarget)
    (prepared : list PreparedValueToSignal) (failures : list ValueToTarget) :
  prepare_actions actions prepared failures =
  (prepared ++ fst (prepare_actions actions [] []),
   failures ++ snd (prepare_actions actions [] [])).
Proof.
  revert prepared failures.
  induction actions as [|a rest IH]; intros prepared failures; simpl.
  - now rewrite !app_nil_r.
  - destruct (PreparedValueToSignal_from_origin a) as [p|ex].
    + rewrite (IH (prepared ++ [p])), (IH [p]). simpl. now rewrite <- app_assoc.
    + rewrite (IH prepared (failures ++ [a])), (IH [] [a]). simpl. now rewrite <- app_assoc.
Qed.

Lemma prepare_actions_partition (actions : list ValueToTarget) :
  map pvts_origin (fst (prepare_actions actions [] [])) = filter resolves actions /\
  snd (prepare_actions actions [] []) = filter (fun a => negb (resolves a)) actions /\
  Forall (fun p => to_signal (vt_target (pvts_origin p)) = Some (pvts_signal p) /\
                   pvts_name p = target_name (vt_target (pvts_origin p)) /\
                   pvts_value p = value (pvts_origin p) /\
                   pvts_result p = incomplete_result)
    (fst (prepare_actions actions [] [])).
Proof.
  induction actions as [|a rest (IH1 & IH2 & IH3)]; simpl.
  - repeat split. constructor.
  - unfold PreparedValueToSignal_from_origin, resolves.
    destruct (to_signal (vt_target a)) as [sg|] eqn:Hsig; rewrite prepare_actions_acc; simpl.
    + rewrite IH1, IH2. repeat split. constructor; [|exact IH3].
      simpl. repeat split. exact Hsig.
    + rewrite IH1, IH2. repeat split. exact IH3.
Qed.

Lemma prepare_criteria_acc (criteria : list ComparisonToTarget)
    (prepared : list PreparedSignalComparison) (failures : list PreparedComparisonException) :
  prepare_criteria criteria prepared failures =
  match prepare_criteria criteria [] [] with
  | Ok (ps, fs) => Ok (prepared ++ ps, failures ++ fs)
  | Raise ex => Raise ex
  end.
Proof.
  revert prepared failures.
  induction criteria as [|k rest IH]; intros prepared failures; simpl.
  - now rewrite !app_nil_r.
  - destruct (create_prepared_comparison k) as [[p|e]|ex]; simpl; [| |reflexivity].
    + rewrite (IH (prepared ++ [p])), (IH [p]).
      destruct (prepare_criteria rest [] []) as [[ps fs]|ex]; [|reflexivity].
      simpl. now rewrite <- app_assoc.
    + rewrite (IH prepared (failures ++ [e])), (IH [] [e]).
      destruct (prepare_criteria rest [] []) as [[ps fs]|ex]; [|reflexivity].
      simpl. now rewrite <- app_assoc.
Qed.

Lemma create_prepared_comparison_raises (check : ComparisonToTarget) :
  if check_unpreparable check
  then create_prepared_comparison check =
       Raise (AttributeError "'NoneType' object has no attribute 'name'")
  else exists out, create_prepared_comparison check = Ok out.
Proof.
  unfold check_unpreparable, create_prepared_comparison.
  destruct (comparison check) as [c|];
    destruct (from_signal (to_signal (ct_target check)) _) as [p|ex];
    try (eexists; reflexivity); reflexivity.
Qed.

Lemma prepare_criteria_outcome (criteria : list ComparisonToTarget) :
  if existsb check_unpreparable criteria
  then prepare_criteria criteria [] [] =
       Raise (AttributeError "'NoneType' object has no attribute 'name'")
  else exists ps fs, prepare_criteria criteria [] [] = Ok (ps, fs) /\
                     length ps + length fs = length criteria.
Proof.
  induction criteria as [|k rest IH]; simpl.
  - exists [], []. split; reflexivity.
  - pose proof (create_prepared_comparison_raises k) as Hk.
    destruct (check_unpreparable k); simpl.
    + rewrite Hk. reflexivity.
    + destruct Hk as (out & ->). simpl.
      destruct (existsb check_unpreparable rest).
      * destruct out; rewrite prepare_criteria_acc, IH; reflexivity.
      * destruct IH as (ps & fs & Hrest & Hlen).
        destruct out as [p|e]; rewrite prepare_criteria_acc, Hrest.
        -- exists (p :: ps), fs. split; [reflexivity|]. simpl. lia.
        -- exists ps, (e :: fs). split; [reflexivity|]. simpl. lia.
Qed.

(** X3: how a set-value step prepares.  An action whose target does not
    resolve never makes the step fail: the actions that resolve become the
    prepared actions, each holding the action it came from, its name and
    value and the signal it resolved to, and the others are collected in
    [prepare_action_failures], both in the order of the step's actions.  The
    step as a whole fails to prepare exactly when one of its checks names no
    comparison and cannot be built from its signal; it is then a
    [FailedStep] holding the [AttributeError] that building the exception
    record raised.  Otherwise every check is either prepared or collected
    as an exception. *)
Theorem set_value_step_preparation (f : StepFields) (actions : list ValueToTarget)
    (criteria : list ComparisonToTarget) (halt req : bool) :
  let step := SetValueStep f actions criteria halt req in
  if existsb check_unpreparable criteria
  then PreparedProcedureStep_from_origin step =
       Failed (failed_step step (AttributeError "'NoneType' object has no attribute 'name'"))
  else exists pa af pc cf,
       PreparedProcedureStep_from_origin step =
         Prepared (PreparedSetValueStep (new_prepared (name f) step) pa af pc cf) /\
       map pvts_origin pa = filter resolves actions /\
       af = filter (fun a => negb (resolves a)) actions /\
       Forall (fun p => to_signal (vt_target (pvts_origin p)) = Some (pvts_signal p) /\
                        pvts_name p = target_name (vt_target (pvts_origin p)) /\
                        pvts_value p = value (pvts_origin p) /\
                        pvts_result p = incomplete_result) pa /\
       length pc + length cf = length criteria.
Proof.
  cbv zeta. unfold PreparedProcedureStep_from_origin. cbn [from_origin_body].
  unfold PreparedSetValueStep_from_origin.
  pose proof (prepare_actions_partition actions) as (Hpa & Haf & Hfresh).
  destruct (prepare_actions actions [] []) as [pa af]. cbn [fst snd] in *.
  pose proof (prepare_criteria_outcome criteria) as Hcrit.
  destruct (existsb check_unpreparable criteria).
  - rewrite Hcrit. reflexivity.
  - destruct Hcrit as (pc & cf & -> & Hlen). cbn.
    exists pa, af, pc, cf. repeat split; assumption.
Qed.

(** X4: how a passive step prepares and runs when its file cannot be
    loaded.  If loading raises an [OSError] the step is prepared all the
    same, without a file, and its run then stores the [error] result "No
    passive checkout to run" without any call to the outside; if loading
    raises anything else the step is a [FailedStep] holding that exception. *)
Theorem passive_step_without_file (f : StepFields) (filepath : string) (ex : Exn) :
  load_passive_file filepath = Raise ex ->
  let step := PassiveStep f filepath in
  if exn_is_oserror ex
  then PreparedProcedureStep_from_origin step =
         Prepared (PreparedPassiveStep (new_prepared (name f) step) None) /\
       forall env,
         exists r c',
           run (PreparedPassiveStep (new_prepared (name f) step) None) env =
             (Ok r, PreparedPassiveStep c' None, env) /\
           step_result c' = mkResult error (ReasonStr "No passive checkout to run") /\
           (step_success_required f = true -> sev_le error (severity r))
  else PreparedProcedureStep_from_origin step = Failed (failed_step step ex).
Proof.
  intros Hload. cbv zeta.
  unfold PreparedProcedureStep_from_origin. cbn [from_origin_body].
  unfold PreparedPassiveStep_from_origin. rewrite Hload.
  destruct (exn_is_oserror ex); [|reflexivity].
  split; [reflexivity|]. intros env.
  rewrite run_not_group, step_run_unfold by reflexivity. cbv zeta.
  cbn [_run PreparedPassiveStep__run fst snd stashed with_common common].
  rewrite result_not_group by reflexivity. cbn [fst snd with_common common].
  eexists _, _. split; [reflexivity|].
  rewrite step_result_fields, step_result_severity. cbn.
  split; [reflexivity|].
  intros ->. apply sev_max_ub_r.
Qed.

End LeafPreparationFacts.

(** X3, on the bench: one action resolves and one does not, and the check
    is prepared. *)
Lemma set_value_step_preparation_witness :
  exists pa af pc cf,
    @PreparedProcedureStep_from_origin bench
      (SetValueStep (mkStepFields (Some "set X") None true true)
         [mkValueToTarget (mkTarget (Some "x") None None (Some "X:SET")) (Some (PInt 5)) None None;
          mkValueToTarget (mkTarget (Some "y") None None (Some "?Y")) (Some (PInt 1)) None None]
         [mkComparisonToTarget (mkTarget (Some "x") None None (Some "X:RBV"))
            (Some (mkComparison (Some "x is 5") "Equals(5)"))]
         true true) =
    Prepared (PreparedSetValueStep
                (@new_prepared bench (Some "set X")
                   (SetValueStep (mkStepFields (Some "set X") None true true)
                      [mkValueToTarget (mkTarget (Some "x") None None (Some "X:SET"))
                         (Some (PInt 5)) None None;
                       mkValueToTarget (mkTarget (Some "y") None None (Some "?Y"))
                         (Some (PInt 1)) None None]
                      [mkComparisonToTarget (mkTarget (Some "x") None None (Some "X:RBV"))
                         (Some (mkComparison (Some "x is 5") "Equals(5)"))]
                      true true))
                pa af pc cf) /\
    map pvts_origin pa =
      [mkValueToTarget (mkTarget (Some "x") None None (Some "X:SET")) (Some (PInt 5)) None None] /\
    af = [mkValueToTarget (mkTarget (Some "y") None None (Some "?Y")) (Some (PInt 1)) None None] /\
    length pc + length cf = 1.
Proof.
  pose proof (@set_value_step_preparation bench (mkStepFields (Some "set X") None true true)
    [mkValueToTarget (mkTarget (Some "x") None None (Some "X:SET")) (Some (PInt 5)) None None;
     mkValueToTarget (mkTarget (Some "y") None None (Some "?Y")) (Some (PInt 1)) None None]
    [mkComparisonToTarget (mkTarget (Some "x") None None (Some "X:RBV"))
       (Some (mkComparison (Some "x is 5") "Equals(5)"))]
    true true) as H.
  cbv zeta in H.
  change (existsb (@check_unpreparable bench) _) with false in H.
  destruct H as (pa & af & pc & cf & Hprep & Hpa & Haf & _ & Hlen).
  exists pa, af, pc, cf. split; [exact Hprep|]. split; [exact Hpa|]. split; [exact Haf|exact Hlen].
Defined.

(** X4, on the bench, where no passive file can be read. *)
Lemma passive_step_without_file_witness :
  @PreparedProcedureStep_from_origin bench
    (PassiveStep (mkStepFields (Some "checkout") None false true) "missing.json") =
  Prepared (PreparedPassiveStep
              (@new_prepared bench (Some "checkout")
                 (PassiveStep (mkStepFields (Some "checkout") None false true) "missing.json"))
              None).
Proof.
  apply (@passive_step_without_file bench (mkStepFields (Some "checkout") None false true)
           "missing.json" (mkExn "FileNotFoundError" true "missing.json") eq_refl).
Defined.

(** ** Preparing a whole tree *)

Section TreePreparationFacts.
Context {E : External}.

Lemma list_all_Forall (A : Type) (P : A -> Prop) (l : list A) :
  list_all P l -> Forall P l.
Proof. intros H. induction H; constructor; assumption. Qed.

Lemma in_prepared_of (l : list AnyPrepared) (st : PreparedProcedureStep) :
  In st (prepared_of l) <-> In (Prepared st) l.
Proof.
  unfold prepared_of. rewrite in_flat_map. split.
  - intros ([s|fs] & Hin & Hst); simpl in Hst; [|contradiction].
    destruct Hst as [->|[]]. exact Hin.
  - intros Hin. exists (Prepared st). split; [exact Hin|left; reflexivity].
Qed.

Lemma from_origin_origin (step : ProcedureStep) (st : PreparedProcedureStep) :
  PreparedProcedureStep_from_origin step = Prepared st -> origin (common st) = step.
Proof.
  unfold PreparedProcedureStep_from_origin.
  destruct step as [f steps|f|f path|f a k h r|f p k d h r].
  - rewrite group_body, group_from_origin_partition. simpl. now intros [= <-].
  - simpl. now intros [= <-].
  - cbn [from_origin_body]. unfold PreparedPassiveStep_from_origin.
    destruct (load_passive_file path) as [pf|ex]; [|destruct (exn_is_oserror ex)]; simpl;
      try discriminate; now intros [= <-].
  - cbn [from_origin_body]. unfold PreparedSetValueStep_from_origin.
    destruct (prepare_actions a [] []) as [pa af].
    destruct (prepare_criteria k [] []) as [[pc cf]|ex]; simpl; try discriminate.
    now intros [= <-].
  - simpl. discriminate.
Qed.

Lemma from_origin_shape (step : ProcedureStep) (st : PreparedProcedureStep) :
  PreparedProcedureStep_from_origin step = Prepared st ->
  is_plan_step st = false /\
  (is_group st = true -> exists f steps, step = ProcedureGroup f steps).
Proof.
  unfold PreparedProcedureStep_from_origin.
  destruct step as [f steps|f|f path|f a k h r|f p k d h r].
  - rewrite group_body, group_from_origin_partition. simpl. intros [= <-].
    split; [reflexivity|]. intros _. eexists _, _. reflexivity.
  - simpl. intros [= <-]. split; [reflexivity|discriminate].
  - cbn [from_origin_body]. unfold PreparedPassiveStep_from_origin.
    destruct (load_passive_file path) as [pf|ex]; [|destruct (exn_is_oserror ex)]; simpl;
      try discriminate; intros [= <-]; (split; [reflexivity|discriminate]).
  - cbn [from_origin_body]. unfold PreparedSetValueStep_from_origin.
    destruct (prepare_actions a [] []) as [pa af].
    destruct (prepare_criteria k [] []) as [[pc cf]|ex]; simpl; try discriminate.
    intros [= <-]. split; [reflexivity|discriminate].
  - simpl. discriminate.
Qed.

Lemma from_origin_failed_leaf (step : ProcedureStep) (fs : FailedStep) :
  PreparedProcedureStep_from_origin step = Failed fs ->
  walk_steps step = [step] /\ failed_origin fs = step.
Proof.
  intros Hfs. pose proof Hfs as Hfs'.
  apply from_origin_failed_inv in Hfs' as (ex & Hbody & ->).
  split; [|reflexivity].
  destruct step; try reflexivity.
  rewrite group_body in Hbody. discriminate Hbody.
Qed.

Lemma leaf_nodes (st : PreparedProcedureStep) :
  is_group st = false -> prepared_nodes st = [st] /\ accounted st = [origin (common st)].
Proof. destruct st; try discriminate; intros _; split; reflexivity. Qed.

(** Every node of a prepared tree is what preparing its own origin gives,
    and its origin is a step of the procedure the tree was prepared from. *)
Lemma prepared_nodes_prepared (step : ProcedureStep) :
  forall st, PreparedProcedureStep_from_origin step = Prepared st ->
  Forall (fun n => In (origin (common n)) (walk_steps step) /\
                   PreparedProcedureStep_from_origin (origin (common n)) = Prepared n)
    (prepared_nodes st).
Proof.
  induction step as [f children IH|f|f path|f a k h r|f p k d h r]; intros st Hst;
    try (destruct (from_origin_shape _ Hst) as (_ & Hgrp);
         assert (Hleaf : is_group st = false)
           by (destruct (is_group st); [destruct (Hgrp eq_refl) as (? & ? & [=])|reflexivity]);
         destruct (leaf_nodes st Hleaf) as (-> & _);
         constructor; [|constructor];
         rewrite (from_origin_origin _ Hst); split; [left; reflexivity|exact Hst]).
  apply list_all_Forall in IH. rewrite Forall_forall in IH.
  pose proof Hst as Hst'. unfold PreparedProcedureStep_from_origin in Hst'.
  rewrite group_body, group_from_origin_partition in Hst'. simpl in Hst'.
  injection Hst' as Hst'.
  rewrite <- Hst' in *. cbn [prepared_nodes]. constructor.
  - split; [left; reflexivity|].
    exact Hst.
  - apply Forall_flat_map, Forall_forall. intros s Hs.
    apply in_prepared_of, in_map_iff in Hs as (child & Hchild & Hin).
    eapply Forall_impl; [|exact (IH child Hin s Hchild)].
    intros n (Hn & Hprep). split; [|exact Hprep].
    cbn [walk_steps]. right. apply in_flat_map. exists child. split; assumption.
Qed.

Lemma outcomes_cons (x : AnyPrepared) (l : list AnyPrepared) :
  prepared_of (x :: l) =
    match x with Prepared st => st :: prepared_of l | Failed _ => prepared_of l end /\
  failed_of (x :: l) =
    match x with Prepared _ => failed_of l | Failed fs => fs :: failed_of l end.
Proof. destruct x; split; reflexivity. Qed.

Lemma children_accounted (children : list ProcedureStep) :
  Forall (fun c => forall s, PreparedProcedureStep_from_origin c = Prepared s ->
                             Permutation (accounted s) (walk_steps c)) children ->
  Permutation
    (map failed_origin (failed_of (map PreparedProcedureStep_from_origin children)) ++
     flat_map accounted (prepared_of (map PreparedProcedureStep_from_origin children)))
    (flat_map walk_steps children).
Proof.
  intros Hall. induction Hall as [|c rest Hc Hrest IH]; [constructor|].
  cbn [map]. destruct (outcomes_cons (PreparedProcedureStep_from_origin c)
                         (map PreparedProcedureStep_from_origin rest)) as (-> & ->).
  destruct (PreparedProcedureStep_from_origin c) as [s|fs] eqn:Hprep.
  - change (flat_map accounted (s :: ?l)) with (accounted s ++ flat_map accounted l).
    change (flat_map walk_steps (c :: rest)) with (walk_steps c ++ flat_map walk_steps rest).
    rewrite Permutation_app_swap_app.
    apply Permutation_app; [exact (Hc s eq_refl)|exact IH].
  - destruct (from_origin_failed_leaf _ Hprep) as (Hwalk & Horigin).
    change (flat_map walk_steps (c :: rest)) with (walk_steps c ++ flat_map walk_steps rest).
    rewrite Hwalk. cbn [map app]. rewrite Horigin. apply perm_skip. exact IH.
Qed.

Lemma prepared_tree_accounts (step : ProcedureStep) :
  forall st, PreparedProcedureStep_from_origin step = Prepared st ->
  Permutation (accounted st) (walk_steps step).
Proof.
  induction step as [f children IH|f|f path|f a k h r|f p k d h r]; intros st Hst;
    try (destruct (from_origin_shape _ Hst) as (_ & Hgrp);
         assert (Hleaf : is_group st = false)
           by (destruct (is_group st); [destruct (Hgrp eq_refl) as (? & ? & [=])|reflexivity]);
         destruct (leaf_nodes st Hleaf) as (_ & ->);
         rewrite (from_origin_origin _ Hst); reflexivity).
  apply list_all_Forall in IH.
  unfold PreparedProcedureStep_from_origin in Hst.
  rewrite group_body, group_from_origin_partition in Hst. simpl in Hst.
  injection Hst as <-. cbn [accounted common origin new_prepared walk_steps].
  apply perm_skip. apply children_accounted. exact IH.
Qed.

(** X5: the origin round trip.  Whatever [from_origin] returns for a step
    holds that step as its origin; and in a prepared tree every node, at
    every depth, is exactly what preparing its own origin gives, that origin
    being one of the steps of the procedure the tree was prepared from. *)
Theorem origin_round_trip (step : ProcedureStep) :
  match PreparedProcedureStep_from_origin step with
  | Prepared st =>
      origin (common st) = step /\
      Forall (fun n => In (origin (common n)) (walk_steps step) /\
                       PreparedProcedureStep_from_origin (origin (common n)) = Prepared n)
        (prepared_nodes st)
  | Failed fs => failed_origin fs = step
  end.
Proof.
  destruct (PreparedProcedureStep_from_origin step) as [st|fs] eqn:Hprep.
  - split; [exact (from_origin_origin _ Hprep)|exact (prepared_nodes_prepared _ Hprep)].
  - exact (proj2 (from_origin_failed_leaf _ Hprep)).
Qed.

(** X6: no step is lost or counted twice in preparation.  The origins of
    the prepared nodes of a tree together with the origins of the steps in
    its [prepare_failures] lists, at every depth, are the steps that
    [walk_steps] yields from the procedure, each exactly once; a step that
    fails to prepare is never a group, so nothing below it goes missing.
    The same holds of a prepared file and [ProcedureFile.walk_steps]. *)
Theorem preparation_accounts_for_every_step :
  (forall step : ProcedureStep,
     match PreparedProcedureStep_from_origin step with
     | Prepared st => Permutation (accounted st) (walk_steps step)
     | Failed fs => walk_steps step = [step] /\ failed_origin fs = step
     end) /\
  (forall file : ProcedureFile,
     Permutation (accounted (prepared_root (PreparedProcedureFile_from_origin file)))
       (ProcedureFile_walk_steps file)).
Proof.
  split.
  - intros step.
    destruct (PreparedProcedureStep_from_origin step) as [st|fs] eqn:Hprep.
    + exact (prepared_tree_accounts _ Hprep).
    + exact (from_origin_failed_leaf _ Hprep).
  - intros file. unfold ProcedureFile_walk_steps. rewrite group_walk_is_flat_map.
    apply (prepared_tree_accounts (root file)).
    unfold PreparedProcedureStep_from_origin, root. rewrite group_body. reflexivity.
Qed.

(** X7: plan steps are never prepared through [from_origin].  Every
    [PlanStep] comes back as a [FailedStep] holding a [NotImplementedError]
    that names its class, and no node of any tree that [from_origin]
    prepares is a [PreparedPlanStep]. *)
Theorem plan_steps_are_never_prepared :
  (forall (f : StepFields) (plans : list PlanOptions) (checks : list ComparisonToTarget)
          (d : PlanDestination) (h r : bool),
     PreparedProcedureStep_from_origin (PlanStep f plans checks d h r) =
     Failed (failed_step (PlanStep f plans checks d h r)
               (NotImplementedError
                  "Step type unsupported: <class 'atef.procedure.PlanStep'>"))) /\
  (forall step : ProcedureStep,
     match PreparedProcedureStep_from_origin step with
     | Prepared st => Forall (fun n => is_plan_step n = false) (prepared_nodes st)
     | Failed _ => True
     end).
Proof.
  split; [reflexivity|]. intros step.
  destruct (PreparedProcedureStep_from_origin step) as [st|fs] eqn:Hprep; [|exact I].
  eapply Forall_impl; [|exact (prepared_nodes_prepared _ Hprep)].
  intros n (_ & Hn). exact (proj1 (from_origin_shape _ Hn)).
Qed.

End TreePreparationFacts.

(** ** Stored results after reading and running *)

Lemma result_consistent (st : PreparedProcedureStep) : consistent (snd (result st)).
Proof.
  induction st as [c steps IH fs|c|c pf|c a af k kf|c p pf k kf];
    try (rewrite result_not_group by reflexivity; cbn [snd];
         apply consistent_leaf; [reflexivity|];
         cbn [common with_common];
         now rewrite step_result_fields, step_result_ignores_combined).
  rewrite result_group. cbv zeta. cbn [snd]. rewrite pull_results_map. cbn [fst snd].
  apply list_all_Forall in IH.
  apply consistent_group.
  - apply Forall_map. exact IH.
  - rewrite step_result_fields. cbn [step_result set_combined_result set_step_result].
    f_equal. rewrite map_map. apply map_ext. intros s. now rewrite result_stores.
  - now rewrite step_result_fields, step_result_ignores_combined.
Qed.

Section StoredResultFacts.
Context {E : External}.

Lemma run_ends_in_result (self : PreparedProcedureStep) (env : Env) :
  exists x, run self env = (Ok (fst (result x)), snd (result x), snd (run self env)).
Proof.
  destruct (is_group self) eqn:Hg.
  - destruct self as [c steps fs| | | |]; try discriminate.
    destruct (run_group c steps fs env) as (rs & steps' & env' & _ & _ & Hrun).
    rewrite Hrun. eexists. reflexivity.
  - rewrite run_not_group, step_run_unfold by exact Hg. cbv zeta.
    eexists. reflexivity.
Qed.

(** X8: after [result] has been read, and after [run], the results stored
    in the tree agree with one another at every depth: each node's
    [combined_result] is the combination, as its originating step's flags
    say, of its stored verification and step results, and each group's
    [step_result] is the forced [error] if it has preparation failures and
    otherwise carries the maximum severity of its children's stored combined
    results. *)
Theorem stored_results_agree (self : PreparedProcedureStep) :
  consistent (snd (result self)) /\
  (forall env, consistent (snd (fst (run self env)))) /\
  (forall env c steps prepare_failures,
     snd (fst (run self env)) = PreparedProcedureGroup c steps prepare_failures ->
     prepare_failures = [] ->
     severity (step_result c) =
       get_maximum_severity (map (fun s => severity (combined_result (common s))) steps)).
Proof.
  split; [apply result_consistent|].
  assert (Hrun : forall env, consistent (snd (fst (run self env)))).
  { intros env. destruct (run_ends_in_result self env) as (x & ->).
    cbn [fst snd]. apply result_consistent. }
  split; [exact Hrun|].
  intros env c steps fs Hself ->. specialize (Hrun env). rewrite Hself in Hrun.
  inversion Hrun as [st Hg _|c' steps' fs' _ Hstep _]; [discriminate Hg|].
  rewrite Hstep. simpl. unfold get_maximum_severity. now rewrite map_map.
Qed.

(** X9: what [run] returns is what the [result] property gives afterwards,
    and reading it then changes nothing; so a caller that inspects [result]
    after a run sees the value the run returned.  The same holds of a whole
    file: preparing it and running it never raises, and the value returned
    is the [result] of the prepared root. *)
Theorem run_then_result :
  (forall (self : PreparedProcedureStep) (env : Env),
     exists r self' env',
       run self env = (Ok r, self', env') /\ result self' = (r, self')) /\
  (forall (f : ProcedureFile) (env : Env),
     exists r root' env',
       PreparedProcedureFile_run (PreparedProcedureFile_from_origin f) env =
         (Ok r, mkPreparedProcedureFile f root', env') /\
       result root' = (r, root') /\
       origin (common root') = root f).
Proof.
  assert (Hstep : forall (self : PreparedProcedureStep) (env : Env),
            exists r self' env',
              run self env = (Ok r, self', env') /\ result self' = (r, self')).
  { intros self env. destruct (run_ends_in_result self env) as (x & Hrun).
    eexists _, _, _. split; [exact Hrun|]. apply result_idempotent. }
  split; [exact Hstep|].
  intros f env. unfold PreparedProcedureFile_run, PreparedProcedureFile_from_origin.
  cbn [prepared_root file].
  destruct (Hstep (PreparedProcedureGroup_from_origin (root_fields f) (root_steps f)) env)
    as (r & root' & env' & Hrun & Hres).
  rewrite Hrun. exists r, root', env'. split; [reflexivity|]. split; [exact Hres|].
  destruct (run_ends_in_result
              (PreparedProcedureGroup_from_origin (root_fields f) (root_steps f)) env)
    as (x & Hx).
  rewrite group_from_origin_partition in Hrun, Hx.
  destruct (run_group (new_prepared None (ProcedureGroup (root_fields f) (root_steps f)))
              (prepared_of (map PreparedProcedureStep_from_origin (root_steps f)))
              (failed_of (map PreparedProcedureStep_from_origin (root_steps f))) env)
    as (rs & steps' & env1 & _ & _ & Hgrp).
  rewrite Hgrp in Hrun.
  set (grp := PreparedProcedureGroup _ steps' _) in Hrun.
  assert (Hroot : root' = snd (result grp)) by congruence.
  rewrite Hroot.
  destruct (result_common grp) as (sr & _ & Hc & _). rewrite Hc, step_result_fields.
  reflexivity.
Qed.

End StoredResultFacts.

(** ** When a result is a success *)

Lemma sev_max_success_iff (a b : Severity) :
  sev_max a b = success <-> a = success /\ b = success.
Proof. destruct a, b; simpl; split; intros H; try discriminate; tauto || (destruct H; discriminate). Qed.

Lemma maximum_success_iff (l : list Severity) :
  get_maximum_severity l = success <-> Forall (fun s => s = success) l.
Proof.
  induction l as [|s l IH]; simpl.
  - split; [constructor|reflexivity].
  - rewrite sev_max_success_iff, IH. split.
    + intros (Hs & Hl). constructor; assumption.
    + intros H. inversion H. split; assumption.
Qed.

(** X10: when a step reports success.  The [result] of a prepared step has
    severity success exactly when the verification result is a success if
    verification is required, and, if step success is required, the step
    result is a success; for a group the latter means that no child failed to
    prepare and every child's [result] is a success. *)
Theorem result_success_iff (self : PreparedProcedureStep) :
  severity (fst (result self)) = success <->
  (verify_required (fields (origin (common self))) = true ->
   severity (verify_result (common self)) = success) /\
  (step_success_required (fields (origin (common self))) = true ->
   if is_group self
   then group_prepare_failures self = [] /\
        Forall (fun s => severity (fst (result s)) = success) (group_steps self)
   else severity (step_result (common self)) = success).
Proof.
  assert (Hflags : forall c sr,
            severity (fst (PreparedProcedureStep_result (set_step_result c sr))) = success <->
            (verify_required (fields (origin c)) = true -> severity (verify_result c) = success) /\
            (step_success_required (fields (origin c)) = true -> severity sr = success)).
  { intros c sr. rewrite step_result_severity, sev_max_success_iff. simpl.
    destruct (verify_required (fields (origin c))),
             (step_success_required (fields (origin c)));
      intuition congruence. }
  destruct self as [c steps fs|c|c pf|c a af k kf|c p pf k kf];
    try (rewrite result_not_group by reflexivity; cbn [fst is_group common];
         rewrite <- (Hflags c (step_result c)); destruct c; reflexivity).
  rewrite result_group. cbv zeta. cbn [fst is_group common group_prepare_failures group_steps].
  rewrite Hflags, pull_results_map. cbn [fst].
  assert (Hgrp : severity (group_step_result fs (map (fun s => fst (result s)) steps)) = success <->
                 fs = [] /\ Forall (fun s => severity (fst (result s)) = success) steps).
  { destruct fs as [|fs0 fs]; simpl.
    - unfold get_maximum_severity. rewrite map_map.
      change (fold_right sev_max success (map (fun x => severity (fst (result x))) steps))
        with (get_maximum_severity (map (fun x => severity (fst (result x))) steps)).
      rewrite maximum_success_iff, Forall_map. intuition.
    - split; [discriminate|intros (H & _); discriminate H]. }
  rewrite Hgrp. reflexivity.
Qed.

(** ** Set-value steps that run to the end *)

Section SetValueRunFacts.
Context {E : External}.

Lemma run_actions_no_halt (org : ProcedureStep) (halt : bool)
    (actions : list PreparedValueToSignal) (env : Env) :
  halt_on_fail_attr org = Ok halt ->
  (halt = true -> Forall (fun p => action_failed p = false) (fst (run_each actions env))) ->
  run_actions org actions env =
  (Ok None, fst (run_each actions env), snd (run_each actions env)).
Proof.
  intros Hhalt. revert env.
  induction actions as [|a rest IH]; intros env Hok; [reflexivity|].
  rewrite run_each_cons in *. cbn [fst snd] in *. cbn [run_actions].
  destruct (action_run_result a env) as (a' & env1 & Hrun & _ & _).
  rewrite Hrun in *. cbn [fst snd] in *. rewrite Hhalt.
  assert (Hcond : halt && sev_gtb (severity (pvts_result a')) success = false).
  { destruct halt; [|reflexivity].
    specialize (Hok eq_refl). apply Forall_cons_iff in Hok as [Ha _]. exact Ha. }
  rewrite Hcond, IH; [reflexivity|].
  intros Ht. specialize (Hok Ht). now apply Forall_cons_iff in Hok as [_ Hrest].
Qed.

Lemma run_each_severities (actions : list PreparedValueToSignal) (env : Env) :
  Forall (fun p => severity (pvts_result p) = success \/ severity (pvts_result p) = error)
    (fst (run_each actions env)) /\
  map pvts_origin (fst (run_each actions env)) = map pvts_origin actions.
Proof.
  revert env. induction actions as [|a rest IH]; intros env.
  - split; [constructor|reflexivity].
  - rewrite run_each_cons. cbn [fst].
    destruct (IH (snd (PreparedValueToSignal_run a env))) as (IH1 & IH2).
    unfold PreparedValueToSignal_run at 1 3.
    destruct (signal_set _ _ _ _ _) as [[ex|] w]; cbn [fst snd];
      (split; [constructor; [simpl; auto|exact IH1]|simpl; now rewrite IH2]).
Qed.

(** What the second loop leaves when no comparison raises, and when one
    does: the comparisons made are those of the criteria up to the one that
    raised, in order. *)
Lemma run_criteria_trace (criteria : list PreparedSignalComparison) (env : Env) :
  match fst (fst (run_criteria criteria env)) with
  | None =>
      trace (snd (run_criteria criteria env)) = trace env ++ map Compared criteria /\
      length (snd (fst (run_criteria criteria env))) = length criteria
  | Some _ =>
      exists pre k post,
        criteria = pre ++ k :: post /\
        trace (snd (run_criteria criteria env)) = trace env ++ map Compared (pre ++ [k])
  end.
Proof.
  revert env. induction criteria as [|k rest IH]; intros env.
  - simpl. split; [now rewrite app_nil_r|reflexivity].
  - cbn [run_criteria].
    destruct (compare k (world env)) as [[r|ex] w].
    + specialize (IH (record (Compared k) w env)).
      destruct (run_criteria rest (record (Compared k) w env)) as [[raised rest'] env'].
      cbn [fst snd] in *. destruct raised as [ex|].
      * destruct IH as (pre & k' & post & -> & Htr).
        exists (k :: pre), k', post. split; [reflexivity|].
        rewrite Htr. simpl. now rewrite <- app_assoc.
      * destruct IH as (Htr & Hlen). split; [|simpl; now rewrite Hlen].
        rewrite Htr. simpl. now rewrite <- app_assoc.
    + cbn [fst snd]. exists [], k, rest. split; reflexivity.
Qed.

(** X11: a set-value step that does not halt runs everything before it
    reports anything.  When [halt_on_fail] is unset, or no action fails, and
    no comparison raises, [_run] writes every prepared action and then
    compares every prepared criterion, in order, each once; every action
    ends with a success or an [error] result.  Only then does it return:
    [error] if action success is required and some action failed to prepare;
    otherwise [error] if some criterion failed to prepare; otherwise the
    maximum severity of the criteria results, together with the action
    results only if action success is required. *)
Theorem set_value_step_runs_everything
    (c : PreparedFields) (actions : list PreparedValueToSignal) (af : list ValueToTarget)
    (criteria : list PreparedSignalComparison) (cf : list PreparedComparisonException)
    (env : Env) (f : StepFields) (acts0 : list ValueToTarget)
    (crit0 : list ComparisonToTarget) (halt req : bool) :
  origin c = SetValueStep f acts0 crit0 halt req ->
  (halt = true -> Forall (fun p => action_failed p = false) (fst (run_each actions env))) ->
  fst (fst (run_criteria criteria (snd (run_each actions env)))) = None ->
  exists r,
    _run (PreparedSetValueStep c actions af criteria cf) env =
      (Ok r,
       PreparedSetValueStep c (fst (run_each actions env)) af
         (snd (fst (run_criteria criteria (snd (run_each actions env))))) cf,
       snd (run_criteria criteria (snd (run_each actions env)))) /\
    trace (snd (run_criteria criteria (snd (run_each actions env)))) =
      trace env ++ map set_event actions ++ map Compared criteria /\
    Forall (fun p => severity (pvts_result p) = success \/ severity (pvts_result p) = error)
      (fst (run_each actions env)) /\
    (req = true -> af <> [] -> severity r = error) /\
    (req = false \/ af = [] -> cf <> [] -> severity r = error) /\
    (req = false \/ af = [] -> cf = [] ->
     severity r =
       _summarize_result_severity all_
         (map psc_result (snd (fst (run_criteria criteria (snd (run_each actions env))))) ++
          (if req then map pvts_result (fst (run_each actions env)) else []))).
Proof.
  intros Horigin Hok Hnone.
  assert (Hhalt : halt_on_fail_attr (origin c) = Ok halt) by (rewrite Horigin; reflexivity).
  assert (Hreq : require_action_success_attr (origin c) = Ok req)
    by (rewrite Horigin; reflexivity).
  pose proof (run_actions_no_halt (origin c) actions env Hhalt Hok) as Hloop.
  pose proof (run_criteria_trace criteria (snd (run_each actions env))) as Htrace.
  rewrite Hnone in Htrace. destruct Htrace as (Htrace & _).
  cbn [_run]. unfold PreparedSetValueStep__run. rewrite Hloop.
  destruct (run_criteria criteria (snd (run_each actions env))) as [[raised criteria'] env'].
  cbn [fst snd] in *. subst raised. rewrite Hreq.
  assert (Htr : trace env' = trace env ++ map set_event actions ++ map Compared criteria)
    by (now rewrite Htrace, run_each_trace, <- app_assoc).
  pose proof (proj1 (run_each_severities actions env)) as Hsev.
  destruct req; destruct af as [|a0 af]; destruct cf as [|k0 cf];
    (eexists; split; [reflexivity|]);
    (split; [exact Htr|]); (split; [exact Hsev|]);
    (split; [|split]); intros H1 H2;
    try (destruct H1 as [H1|H1]); try congruence; reflexivity.
Qed.


End SetValueRunFacts.

(** ** Plan steps *)

Section PlanStepFacts.
Context {E : External}.

(** X13: a prepared plan step never succeeds and never submits a plan.
    Its [_run] either returns [error] at once (plan success required and a
    plan that failed to prepare) or raises, at the latest when it reads the
    attribute [prep_plans], which the class does not have; so after [run]
    the step result is [error] or [internal_error], no plan has been handed
    to the run engine, the prepared plans are as they were, and a step of
    which step success is required reports at least [error]. *)
Theorem plan_step_never_succeeds
    (c : PreparedFields) (plans : list PreparedPlan) (pf : list PlanOptions)
    (checks : list PreparedSignalComparison) (cf : list PreparedComparisonException)
    (env : Env) :
  exists r c' env',
    run (PreparedPlanStep c plans pf checks cf) env =
      (Ok r, PreparedPlanStep c' plans pf checks cf, env') /\
    (severity (step_result c') = error \/ severity (step_result c') = internal_error) /\
    filter is_local_run (trace env') = filter is_local_run (trace env) /\
    filter is_compared (trace env') = filter is_compared (trace env) /\
    (step_success_required (fields (origin c)) = true -> sev_le error (severity r)).
Proof.
  rewrite run_not_group, step_run_unfold by reflexivity. cbv zeta.
  cbn [_run]. unfold PreparedPlanStep__run.
  assert (Hrec : forall w, filter is_local_run (trace (record NamespaceLoaded w env)) =
                           filter is_local_run (trace env) /\
                           filter is_compared (trace (record NamespaceLoaded w env)) =
                           filter is_compared (trace env)).
  { intros w. unfold record. cbn [trace]. rewrite !filter_app. simpl.
    now rewrite !app_nil_r. }
  assert (Hsev : forall c0 sr,
            step_success_required (fields (origin c0)) = true ->
            (severity sr = error \/ severity sr = internal_error) ->
            sev_le error
              (severity (fst (PreparedProcedureStep_result (set_step_result c0 sr))))).
  { intros c0 sr Hs Hsr. rewrite step_result_severity. simpl. rewrite Hs.
    eapply sev_le_trans; [|apply sev_max_ub_r].
    unfold sev_le. destruct Hsr as [-> | ->]; simpl; lia. }
  destruct (require_plan_success_attr (origin c)) as [[|]|ex0]; [destruct pf as [|p0 pf]| |];
    try (destruct (load_namespace (world env)) as [[ex1|] w]);
    cbn [fst snd stashed];
    rewrite result_not_group by reflexivity; cbn [fst snd common with_common];
    rewrite step_result_fields;
    eexists _, _, _; (split; [reflexivity|]);
    cbn [step_result set_combined_result set_step_result severity];
    (split; [auto|]);
    try (destruct (Hrec w) as (-> & ->));
    (split; [reflexivity|]); (split; [reflexivity|]);
    intros Hs; apply Hsev; auto.
Qed.

End PlanStepFacts.

(** X11, on the bench: the second write fails, but the step neither halts
    nor requires action success; all three writes and the comparison are made
    and the step result is a success. *)
Lemma set_value_step_runs_everything_witness :
  exists r self' env',
    @_run bench (tolerant_step [read_back "X:RBV"]) bench_env = (Ok r, self', env') /\
    severity r = success /\
    trace env' =
      [set_event (write_to "X:SET" 5); set_event (write_to "X:FAIL" 1);
       set_event (write_to "Y:SET" 2); Compared (read_back "X:RBV")].
Proof.
  destruct (@set_value_step_runs_everything bench
              (mkPreparedFields (Some "set X")
                 (SetValueStep (mkStepFields (Some "set X") None false true) [] [] false false)
                 incomplete incomplete incomplete)
              [write_to "X:SET" 5; write_to "X:FAIL" 1; write_to "Y:SET" 2] []
              [read_back "X:RBV"] [] bench_env
              (mkStepFields (Some "set X") None false true) [] [] false false eq_refl)
    as (r & Hrun & Htrace & _ & _ & _ & Hsev).
  - discriminate.
  - reflexivity.
  - eexists r, _, _. split; [exact Hrun|]. split.
    + rewrite (Hsev (or_introl eq_refl) eq_refl). reflexivity.
    + rewrite Htrace. reflexivity.
Defined.


(** ** What [result] reads and what [run] keeps *)

Lemma forget_caches_group_fields (c : PreparedFields) (x : Result) :
  set_step_result (set_step_result (set_combined_result c Result_default) Result_default) x =
  set_combined_result (set_step_result c x) Result_default.
Proof. reflexivity. Qed.

Lemma result_forgets (st : PreparedProcedureStep) :
  fst (result (forget_caches st)) = fst (result st).
Proof.
  induction st as [c steps IH fs|c|c pf|c a af k kf|c p pf k kf];
    try (cbn [forget_caches common with_common];
         rewrite !result_not_group by reflexivity; cbn [fst common];
         apply step_result_ignores_combined).
  cbn [forget_caches]. rewrite !result_group. cbv zeta. cbn [fst].
  rewrite !pull_results_map. cbn [fst].
  apply list_all_Forall in IH.
  assert (Hrs : map (fun s => fst (result s)) (map forget_caches steps) =
                map (fun s => fst (result s)) steps).
  { rewrite map_map. apply map_ext_Forall. exact IH. }
  rewrite Hrs, forget_caches_group_fields. apply step_result_ignores_combined.
Qed.

(** X14: [result] is recomputed, not read from a cache.  What the property
    returns does not depend on any stored [combined_result], nor on the
    stored [step_result] of any group, anywhere in the tree: two trees that
    differ only in those fields give the same result.  It depends on the
    flags, the verification results, the step results of the steps that are
    not groups, and the preparation failures. *)
Theorem result_ignores_stored_results :
  (forall st : PreparedProcedureStep, fst (result (forget_caches st)) = fst (result st)) /\
  (forall a b : PreparedProcedureStep,
     forget_caches a = forget_caches b -> fst (result a) = fst (result b)) /\
  (forall (st : PreparedProcedureStep) (r : Result),
     fst (result (with_common st (set_combined_result (common st) r))) = fst (result st)) /\
  (forall (c : PreparedFields) (steps : list PreparedProcedureStep)
          (failures : list FailedStep) (r : Result),
     fst (result (PreparedProcedureGroup (set_step_result c r) steps failures)) =
     fst (result (PreparedProcedureGroup c steps failures))).
Proof.
  split; [exact result_forgets|]. split; [|split].
  - intros a b Hab. rewrite <- (result_forgets a), <- (result_forgets b), Hab. reflexivity.
  - intros st r.
    rewrite <- (result_forgets (with_common _ _)), <- (result_forgets st).
    f_equal. f_equal. destruct st; reflexivity.
  - intros c steps failures r.
    rewrite <- (result_forgets (PreparedProcedureGroup (set_step_result c r) _ _)),
      <- (result_forgets (PreparedProcedureGroup c steps failures)).
    reflexivity.
Qed.

Lemma result_keeps_verifications (st : PreparedProcedureStep) :
  verifications (snd (result st)) = verifications st.
Proof.
  induction st as [c steps IH fs|c|c pf|c a af k kf|c p pf k kf];
    try (rewrite result_not_group by reflexivity; cbn [snd];
         rewrite step_result_fields; reflexivity).
  rewrite result_group. cbv zeta. cbn [snd]. rewrite pull_results_map. cbn [snd].
  rewrite step_result_fields. cbn [verifications common origin verify_result
    set_combined_result set_step_result].
  f_equal. apply list_all_Forall in IH.
  induction IH as [|s rest Hs Hrest IHrest]; [reflexivity|].
  cbn [map flat_map]. now rewrite Hs, IHrest.
Qed.

Section RunKeepsFacts.
Context {E : External}.

Lemma run_steps_keeps_verifications (steps : list PreparedProcedureStep) :
  Forall (fun s => forall env, verifications (snd (fst (run s env))) = verifications s) steps ->
  forall env,
    flat_map verifications (snd (fst (run_steps run steps env))) =
    flat_map verifications steps.
Proof.
  intros Hall. induction Hall as [|s rest Hs Hrest IH]; intros env; [reflexivity|].
  cbn [run_steps]. specialize (Hs env).
  destruct (run s env) as [[[r|ex] s'] env1]; cbn [fst snd] in Hs.
  - specialize (IH env1).
    destruct (run_steps run rest env1) as [[outcomes rest'] env2]. cbn [fst snd] in *.
    change (flat_map verifications (s' :: rest'))
      with (verifications s' ++ flat_map verifications rest').
    change (flat_map verifications (s :: rest))
      with (verifications s ++ flat_map verifications rest).
    now rewrite Hs, IH.
  - cbn [fst snd].
    change (flat_map verifications (s' :: rest))
      with (verifications s' ++ flat_map verifications rest).
    change (flat_map verifications (s :: rest))
      with (verifications s ++ flat_map verifications rest).
    now rewrite Hs.
Qed.

Lemma run_keeps_verifications (self : PreparedProcedureStep) :
  forall env, verifications (snd (fst (run self env))) = verifications self.
Proof.
  induction self as [c steps IH fs|c|c pf|c a af k kf|c p pf k kf]; intros env;
    try (rewrite run_not_group, step_run_unfold by reflexivity; cbv zeta; cbn [fst snd];
         rewrite result_keeps_verifications;
         match goal with
         | |- verifications (with_common (snd (fst (_run ?s env))) _) = _ =>
             destruct (_run_shape s env) as (Hg & Ho & Hv);
             destruct (snd (fst (_run s env))); try discriminate Hg;
             cbn [verifications common with_common origin verify_result set_step_result] in *;
             now rewrite Ho, Hv
         end).
  apply list_all_Forall in IH.
  pose proof (run_steps_keeps_verifications IH env) as Hsteps.
  destruct (run_group c steps fs env) as (rs & steps' & env' & Hrs & _ & Hrun).
  rewrite Hrun. cbn [fst snd]. rewrite result_keeps_verifications.
  rewrite Hrs in Hsteps. cbn [fst snd] in Hsteps.
  cbn [verifications common origin verify_result set_step_result]. now rewrite Hsteps.
Qed.

(** X15: neither reading [result] nor [run] touches what was verified.  At
    every node of the tree, in the same order and number, the originating
    step and the verification result are after [result], after [run], and
    after running a whole prepared file what they were before. *)
Theorem run_keeps_verification_results :
  (forall st : PreparedProcedureStep, verifications (snd (result st)) = verifications st) /\
  (forall (st : PreparedProcedureStep) (env : Env),
     verifications (snd (fst (run st env))) = verifications st) /\
  (forall (pf : PreparedProcedureFile) (env : Env),
     verifications (prepared_root (snd (fst (PreparedProcedureFile_run pf env)))) =
     verifications (prepared_root pf)).
Proof.
  split; [exact result_keeps_verifications|]. split; [exact run_keeps_verifications|].
  intros pf env. unfold PreparedProcedureFile_run.
  pose proof (run_keeps_verifications (prepared_root pf) env) as H.
  destruct (run (prepared_root pf) env) as [[outcome root'] env']. exact H.
Qed.

End RunKeepsFacts.

(** ** Groups run every child *)

Section GroupRunFacts.
Context {E : External}.

Lemma run_result_stable (self : PreparedProcedureStep) (env : Env) :
  result (snd (fst (run self env))) =
  (combined_result (common (snd (fst (run self env)))), snd (fst (run self env))).
Proof.
  destruct (run_ends_in_result self env) as (x & ->). cbn [fst snd].
  rewrite result_idempotent, result_stores. reflexivity.
Qed.

Lemma run_in_turn_cons (s : PreparedProcedureStep) (rest : list PreparedProcedureStep)
    (env : Env) :
  run_in_turn (s :: rest) env =
  (snd (fst (run s env)) :: fst (run_in_turn rest (snd (run s env))),
   snd (run_in_turn rest (snd (run s env)))).
Proof.
  cbn [run_in_turn]. destruct (run s env) as [[outcome s'] env1]. cbn [fst snd].
  destruct (run_in_turn rest env1); reflexivity.
Qed.

Lemma run_steps_in_turn (steps : list PreparedProcedureStep) (env : Env) :
  exists rs,
    run_steps run steps env = (Ok rs, fst (run_in_turn steps env), snd (run_in_turn steps env)) /\
    length (fst (run_in_turn steps env)) = length steps.
Proof.
  revert env. induction steps as [|s rest IH]; intros env.
  - exists []. split; reflexivity.
  - rewrite run_in_turn_cons. cbn [fst snd run_steps].
    destruct (run_total s env) as (r & s' & env1 & Hrun). rewrite Hrun. cbn [fst snd].
    destruct (IH env1) as (rs & Hrest & Hlen). rewrite Hrest. cbn [res_bind].
    exists (r :: rs). split; [reflexivity|]. simpl. now rewrite Hlen.
Qed.

Lemma results_stable_in_turn (steps : list PreparedProcedureStep) (env : Env) :
  Forall (fun s => result s = (combined_result (common s), s)) (fst (run_in_turn steps env)).
Proof.
  revert env. induction steps as [|s rest IH]; intros env; [constructor|].
  rewrite run_in_turn_cons. cbn [fst]. constructor; [apply run_result_stable|apply IH].
Qed.

(** X16: a group runs every child, in order, whatever the children return.
    There is no halting at the level of a group: after the group's run its
    children are exactly what their own runs, one after the other, each in
    the world the previous one left, made of them, and the world is the one
    the last child left.  This holds also when some child failed to prepare:
    the children that were prepared are run all the same. *)
Theorem group_runs_every_child (c : PreparedFields) (steps : list PreparedProcedureStep)
    (failures : list FailedStep) (env : Env) :
  exists r c',
    run (PreparedProcedureGroup c steps failures) env =
      (Ok r,
       PreparedProcedureGroup c' (fst (run_in_turn steps env)) failures,
       snd (run_in_turn steps env)) /\
    length (fst (run_in_turn steps env)) = length steps /\
    step_result c' =
      group_step_result failures
        (map (fun s => combined_result (common s)) (fst (run_in_turn steps env))).
Proof.
  destruct (run_steps_in_turn steps env) as (rs & Hsteps & Hlen).
  destruct (run_group c steps failures env) as (rs' & steps' & env' & Hsteps' & _ & Hrun).
  rewrite Hsteps in Hsteps'. injection Hsteps' as <- <- <-.
  pose proof (results_stable_in_turn steps env) as Hstable.
  assert (Hsnd : map (fun s => snd (result s)) (fst (run_in_turn steps env)) =
                 fst (run_in_turn steps env)).
  { rewrite <- (map_id (fst (run_in_turn steps env))) at 2.
    apply map_ext_Forall. eapply Forall_impl; [|exact Hstable].
    intros s Hs. now rewrite Hs. }
  assert (Hfst : map (fun s => fst (result s)) (fst (run_in_turn steps env)) =
                 map (fun s => combined_result (common s)) (fst (run_in_turn steps env))).
  { apply map_ext_Forall. eapply Forall_impl; [|exact Hstable].
    intros s Hs. now rewrite Hs. }
  rewrite Hrun, result_group. cbv zeta. rewrite pull_results_map. cbn [fst snd].
  rewrite Hsnd, Hfst.
  eexists _, _. split; [reflexivity|]. split; [exact Hlen|].
  now rewrite step_result_fields.
Qed.

End GroupRunFacts.

(** X16, on the bench: the first child of the group ends in [error], and the
    second is run all the same. *)
Lemma group_runs_every_child_witness :
  exists r c' env',
    @run bench
      (PreparedProcedureGroup
         (@new_prepared bench None (ProcedureGroup (mkStepFields None None false true) []))
         [halting_step; tolerant_step [read_back "X:RBV"]] []) bench_env =
      (Ok r, PreparedProcedureGroup c'
               (fst (@run_in_turn bench [halting_step; tolerant_step [read_back "X:RBV"]]
                       bench_env)) [], env') /\
    severity r = error /\
    length (filter is_compared (trace env')) = 1 /\
    length (trace env') = 6.
Proof.
  destruct (@group_runs_every_child bench
              (@new_prepared bench None (ProcedureGroup (mkStepFields None None false true) []))
              [halting_step; tolerant_step [read_back "X:RBV"]] [] bench_env)
    as (r & c' & Hrun & _ & _).
  exists r, c', (snd (@run_in_turn bench [halting_step; tolerant_step [read_back "X:RBV"]]
                        bench_env)).
  split; [exact Hrun|].
  split; [|split; reflexivity].
  apply (f_equal (fun t => fst (fst t))) in Hrun. cbn [fst] in Hrun.
  vm_compute in Hrun. injection Hrun as <-. reflexivity.
Defined.
